(** * WorkerHandler: a shallow embedding of src/WorkerHandler.js

    The handler owns one worker (child process, worker thread or web
    worker), multiplexes requests over it and runs the termination state
    machine.  The JavaScript is single threaded: every mutation happens
    inside one event callback or one method call.  Each such callback is
    embedded below as a computation in a small state/exception/writer
    monad over the handler record; what the callback does to the outside
    world (messages sent, promises settled, user callbacks invoked,
    timers armed) is logged as a list of effects. *)

From stdpp Require Import base option list gmap strings pretty sorting.

Set Default Proof Using "Type".

(** ** JavaScript values that cross the worker boundary *)

Inductive Value :=
  | VUndefined
  | VNull
  | VBool (b : bool)
  | VNum (n : Z)
  | VStr (s : string)
  | VOpaque (tag : nat).   (* any other structured value, compared by identity *)

(** [if (v)] *)
Definition truthy (v : Value) : bool :=
  match v with
  | VUndefined | VNull => false
  | VBool b => b
  | VNum n => negb (n =? 0)%Z
  | VStr s => negb (String.eqb s "")
  | VOpaque _ => true
  end.

(** ToNumber on the values the handler compares; [None] is NaN, which is
    also what an object or a string that is not a numeral converts to. *)
Definition to_number (v : Value) : option Z :=
  match v with
  | VUndefined => None
  | VNull => Some 0%Z
  | VBool b => Some (if b then 1 else 0)%Z
  | VNum n => Some n
  | VStr _ | VOpaque _ => None
  end.

(** [a >= b]: every comparison with NaN is false. *)
Definition js_ge (a b : Value) : bool :=
  match to_number a, to_number b with
  | Some x, Some y => (y <=? x)%Z
  | _, _ => false
  end.

(** An object used as a property bag: own enumerable properties by name. *)
Abbreviation Props := (gmap string Value).

(** obj[k] *)
Definition get_prop (obj : Props) (k : string) : Value :=
  default VUndefined (obj !! k).

(** Object.keys(obj) *)
Definition keys (obj : Props) : list string := (map_to_list obj).*1.

(** ** Error codec *)

Module ErrorCodec.

(** What arrives in [response.error]: a string or a serialized object. *)
Inductive ErrorDescriptor :=
  | DString (s : string)
  | DObject (obj : Props).

(** An [Error] instance: the constructor it was made with and the own
    properties that the constructor's argument and later assignments
    give it.  [new Error(m)] creates the own property [message].  Two
    things are not part of the record: the [stack] that an engine may
    give a new error of its own accord, and the prototype, which only an
    assignment to [__proto__] changes. *)
Record JsError := mkError { ctor : string; own : Props }.

Definition new_Error (message : string) : JsError :=
  mkError "Error" {[ "message" := VStr message ]}.

Definition new_TypeError (message : string) : JsError :=
  mkError "TypeError" {[ "message" := VStr message ]}.

(** temp[k] = v.  Every key creates or overwrites an own property, but
    for [__proto__]: that assignment runs the accessor every object
    inherits, which creates no property. *)
Definition assign (temp : JsError) (k : string) (v : Value) : JsError :=
  if String.eqb k "__proto__" then temp
  else mkError (ctor temp) (<[k := v]> (own temp)).

(** The [for] loop of objectToError: props[0], props[1], ... in turn. *)
Fixpoint copy_props (obj : Props) (props : list string) (temp : JsError) : JsError :=
  match props with
  | [] => temp
  | p :: rest => copy_props obj rest (assign temp p (get_prop obj p))
  end.

Definition objectToError (d : ErrorDescriptor) : JsError :=
  match d with
  | DString s => new_Error s
  | DObject obj =>
      let temp := new_Error "" in
      let props := keys obj in
      copy_props obj props temp
  end.

(** [if (response.error)]: the empty string is the one falsy descriptor. *)
Definition descriptor_truthy (d : ErrorDescriptor) : bool :=
  match d with
  | DString s => negb (String.eqb s "")
  | DObject _ => true
  end.

End ErrorCodec.
Export ErrorCodec.

(** ** The transport: one worker object *)

Inductive WorkerKind :=
  | ChildProcess     (* setupProcessWorker: worker.isChildProcess *)
  | WorkerThread     (* setupWorkerThreadWorker: worker.isWorkerThread *)
  | BrowserWorker.   (* setupBrowserWorker: worker.isBrowserWorker *)

(** A diagnostic attribute of the worker object, as string concatenation
    sees it. *)
Inductive Attr :=
  | AUndefined
  | ANull
  | AString (s : string)
  | AArray (items : list string)
  | AObject.

Definition attr_to_string (a : Attr) : string :=
  match a with
  | AUndefined => "undefined"
  | ANull => "null"
  | AString s => s
  | AArray items => String.concat "," items
  | AObject => "[object Object]"
  end.

(** ["" + v].  [VNum] stands for the integral numbers the handler meets
    (ids, ports, exit codes), all far below 1e21, from where on
    JavaScript prints a number in exponent form. *)
Definition to_string (v : Value) : string :=
  match v with
  | VUndefined => "undefined"
  | VNull => "null"
  | VBool true => "true"
  | VBool false => "false"
  | VNum n => pretty n
  | VStr s => s
  | VOpaque _ => "[object Object]"
  end.

Record Worker := mkWorker {
  kind : WorkerKind;
  ready : bool;          (* worker.ready, undefined until set *)
  killed : bool;         (* worker.killed *)
  spawnargs : Attr;
  spawnfile : Attr;
  stdout : Attr;
  stderr : Attr
}.

(** typeof worker.kill === "function": a child process has it natively,
    setupWorkerThreadWorker adds it to a thread worker. *)
Definition has_kill (k : WorkerKind) : bool :=
  match k with ChildProcess | WorkerThread => true | BrowserWorker => false end.

(** typeof worker.terminate === "function" *)
Definition has_terminate (k : WorkerKind) : bool :=
  match k with WorkerThread | BrowserWorker => true | ChildProcess => false end.

(** worker.removeAllListeners: the event emitters of node.js have it. *)
Definition has_removeAllListeners (k : WorkerKind) : bool :=
  match k with ChildProcess | WorkerThread => true | BrowserWorker => false end.

Definition isChildProcess (k : WorkerKind) : bool :=
  match k with ChildProcess => true | _ => false end.

(** Reading a property of the worker object by name.  The handler stores
    [ready] and [killed] on it; its counters and limits live on the
    handler, not here. *)
Definition transport_get (w : Worker) (p : string) : Value :=
  if String.eqb p "ready" then VBool (ready w)
  else if String.eqb p "killed" then VBool (killed w)
  else if String.eqb p "isChildProcess" then
    (if isChildProcess (kind w) then VBool true else VUndefined)
  else VUndefined.

(** The receiver of a listener registered with worker.on("message", f).
    A node.js emitter calls [f] with the emitter as [this]; the browser
    shim of setupBrowserWorker calls [callback(message.data)], and in
    this strict-mode file a plain call has [this] undefined. *)
Inductive This := ThisUndefined | ThisTransport.

Definition listener_this (k : WorkerKind) : This :=
  match k with
  | BrowserWorker => ThisUndefined
  | ChildProcess | WorkerThread => ThisTransport
  end.

(** ** Tasks and messages *)

(** The resolver of a task: one the caller passed to exec, or the
    deferred that exec allocated for task [id]. *)
Inductive Resolver :=
  | Supplied (r : nat)
  | OwnDeferred (id : nat).

(** ExecOptions; [on] is [Some f] when [typeof options.on === "function"]. *)
Record ExecOptions := mkExecOptions { on : option nat }.

Record Task := mkTask {
  id : nat;
  resolver : Resolver;
  options : option ExecOptions;
  started : Z
}.

Record Request := mkRequest {
  req_id : nat;
  method : string;
  params : Value
}.

Definition TERMINATE_METHOD_ID : string := "__workerpool-terminate__".
Definition CHILD_PROCESS_EXIT_TIMEOUT : N := 1000.

(** What goes to worker.send and into requestQueue. *)
Inductive Outgoing :=
  | ORequest (r : Request)
  | OString (s : string).

Record Response := mkResponse {
  resp_id : nat;
  isEvent : bool;
  payload : Value;
  error : option ErrorDescriptor;
  result : Value
}.

Inductive Message :=
  | MString (s : string)
  | MObject (r : Response).

(** A termination callback: one passed to terminate by the caller, or
    the closure terminateAndNotify builds around its deferred [d]. *)
Inductive TermCallback :=
  | UserCallback (f : nat)
  | NotifyCallback (d : nat).

(** ** Effects on the outside world *)

Inductive TimerId := ReadyTimeoutTimer | CleanExitTimeout.

Inductive Effect :=
  | Send (m : Outgoing)                    (* worker.send(m) *)
  | Reject (r : Resolver) (e : JsError)    (* task resolver.reject(e) *)
  | Resolve (r : Resolver) (v : Value)     (* task resolver.resolve(v) *)
  | CallOn (f : nat) (p : Value)           (* task.options.on(p) *)
  | CallOnWorkerReady                      (* options.onWorkerReady() *)
  | CallOnWorkerExit                       (* options.onWorkerExit() *)
  | SetTimeout (t : TimerId) (ms : N)
  | ClearTimeout (t : TimerId)
  | SetInterval (ms : N)
  | OnceExit                               (* worker.once("exit", ...) *)
  | Kill                                   (* worker.kill() *)
  | WorkerTerminate                        (* worker.terminate() *)
  | RemoveAllListeners (event : string)
  | CallTerminationHandler (f : nat) (err : option JsError)
  | RejectTermination (d : nat) (e : JsError)
  | ResolveTermination (d : nat)
  | Uncaught (e : JsError).                (* an exception left the callback *)

(** ** The handler *)

Record Stats := mkStats {
  requestCount : nat;
  responseCount : nat;
  totalTime : Z;
  minTime : option Z;     (* None is Infinity *)
  maxTime : Z;
  lastTime : Z
}.

Record Handler := mkHandler {
  script : string;
  transport : Worker;        (* the object setupWorker returned *)
  worker : bool;             (* this.worker still refers to it (false: null) *)
  concurrency : nat;
  maxExec : nat;
  markNotReadyAfterExec : bool;
  readyTimeoutDuration : option N;
  initReadyTimeoutDuration : option N;
  stats : Stats;
  _onWorkerExit : bool;      (* the closure variable still holds the callback *)
  _onWorkerReady : bool;
  readyTimeoutTimer : option N;     (* the armed timer, by its delay *)
  requestQueue : list Outgoing;
  processing : gmap nat Task;
  terminating : bool;
  terminated : bool;
  terminationHandler : option TermCallback;
  lastId : nat;
  exitListeners : nat        (* listeners added by worker.once("exit", ...) *)
}.

(** Field updates ([me.f = v]). *)
Definition set_transport (w : Worker) (h : Handler) : Handler :=
  mkHandler (script h) w (worker h) (concurrency h) (maxExec h)
    (markNotReadyAfterExec h) (readyTimeoutDuration h) (initReadyTimeoutDuration h)
    (stats h) (_onWorkerExit h) (_onWorkerReady h) (readyTimeoutTimer h)
    (requestQueue h) (processing h) (terminating h) (terminated h)
    (terminationHandler h) (lastId h) (exitListeners h).

Definition set_worker (b : bool) (h : Handler) : Handler :=
  mkHandler (script h) (transport h) b (concurrency h) (maxExec h)
    (markNotReadyAfterExec h) (readyTimeoutDuration h) (initReadyTimeoutDuration h)
    (stats h) (_onWorkerExit h) (_onWorkerReady h) (readyTimeoutTimer h)
    (requestQueue h) (processing h) (terminating h) (terminated h)
    (terminationHandler h) (lastId h) (exitListeners h).

Definition set_stats (s : Stats) (h : Handler) : Handler :=
  mkHandler (script h) (transport h) (worker h) (concurrency h) (maxExec h)
    (markNotReadyAfterExec h) (readyTimeoutDuration h) (initReadyTimeoutDuration h)
    s (_onWorkerExit h) (_onWorkerReady h) (readyTimeoutTimer h)
    (requestQueue h) (processing h) (terminating h) (terminated h)
    (terminationHandler h) (lastId h) (exitListeners h).

Definition set__onWorkerExit (b : bool) (h : Handler) : Handler :=
  mkHandler (script h) (transport h) (worker h) (concurrency h) (maxExec h)
    (markNotReadyAfterExec h) (readyTimeoutDuration h) (initReadyTimeoutDuration h)
    (stats h) b (_onWorkerReady h) (readyTimeoutTimer h)
    (requestQueue h) (processing h) (terminating h) (terminated h)
    (terminationHandler h) (lastId h) (exitListeners h).

Definition set_readyTimeoutTimer (t : option N) (h : Handler) : Handler :=
  mkHandler (script h) (transport h) (worker h) (concurrency h) (maxExec h)
    (markNotReadyAfterExec h) (readyTimeoutDuration h) (initReadyTimeoutDuration h)
    (stats h) (_onWorkerExit h) (_onWorkerReady h) t
    (requestQueue h) (processing h) (terminating h) (terminated h)
    (terminationHandler h) (lastId h) (exitListeners h).

Definition set_requestQueue (q : list Outgoing) (h : Handler) : Handler :=
  mkHandler (script h) (transport h) (worker h) (concurrency h) (maxExec h)
    (markNotReadyAfterExec h) (readyTimeoutDuration h) (initReadyTimeoutDuration h)
    (stats h) (_onWorkerExit h) (_onWorkerReady h) (readyTimeoutTimer h)
    q (processing h) (terminating h) (terminated h)
    (terminationHandler h) (lastId h) (exitListeners h).

Definition set_processing (p : gmap nat Task) (h : Handler) : Handler :=
  mkHandler (script h) (transport h) (worker h) (concurrency h) (maxExec h)
    (markNotReadyAfterExec h) (readyTimeoutDuration h) (initReadyTimeoutDuration h)
    (stats h) (_onWorkerExit h) (_onWorkerReady h) (readyTimeoutTimer h)
    (requestQueue h) p (terminating h) (terminated h)
    (terminationHandler h) (lastId h) (exitListeners h).

Definition set_terminating (b : bool) (h : Handler) : Handler :=
  mkHandler (script h) (transport h) (worker h) (concurrency h) (maxExec h)
    (markNotReadyAfterExec h) (readyTimeoutDuration h) (initReadyTimeoutDuration h)
    (stats h) (_onWorkerExit h) (_onWorkerReady h) (readyTimeoutTimer h)
    (requestQueue h) (processing h) b (terminated h)
    (terminationHandler h) (lastId h) (exitListeners h).

Definition set_terminated (b : bool) (h : Handler) : Handler :=
  mkHandler (script h) (transport h) (worker h) (concurrency h) (maxExec h)
    (markNotReadyAfterExec h) (readyTimeoutDuration h) (initReadyTimeoutDuration h)
    (stats h) (_onWorkerExit h) (_onWorkerReady h) (readyTimeoutTimer h)
    (requestQueue h) (processing h) (terminating h) b
    (terminationHandler h) (lastId h) (exitListeners h).

Definition set_terminationHandler (c : option TermCallback) (h : Handler) : Handler :=
  mkHandler (script h) (transport h) (worker h) (concurrency h) (maxExec h)
    (markNotReadyAfterExec h) (readyTimeoutDuration h) (initReadyTimeoutDuration h)
    (stats h) (_onWorkerExit h) (_onWorkerReady h) (readyTimeoutTimer h)
    (requestQueue h) (processing h) (terminating h) (terminated h)
    c (lastId h) (exitListeners h).

Definition set_lastId (n : nat) (h : Handler) : Handler :=
  mkHandler (script h) (transport h) (worker h) (concurrency h) (maxExec h)
    (markNotReadyAfterExec h) (readyTimeoutDuration h) (initReadyTimeoutDuration h)
    (stats h) (_onWorkerExit h) (_onWorkerReady h) (readyTimeoutTimer h)
    (requestQueue h) (processing h) (terminating h) (terminated h)
    (terminationHandler h) n (exitListeners h).

Definition set_exitListeners (n : nat) (h : Handler) : Handler :=
  mkHandler (script h) (transport h) (worker h) (concurrency h) (maxExec h)
    (markNotReadyAfterExec h) (readyTimeoutDuration h) (initReadyTimeoutDuration h)
    (stats h) (_onWorkerExit h) (_onWorkerReady h) (readyTimeoutTimer h)
    (requestQueue h) (processing h) (terminating h) (terminated h)
    (terminationHandler h) (lastId h) n.

Definition set_ready (b : bool) (w : Worker) : Worker :=
  mkWorker (kind w) b (killed w) (spawnargs w) (spawnfile w) (stdout w) (stderr w).

Definition set_killed (b : bool) (w : Worker) : Worker :=
  mkWorker (kind w) (ready w) b (spawnargs w) (spawnfile w) (stdout w) (stderr w).

(** ** The monad of one callback: handler state, exceptions, effect log *)

Inductive Completion (A : Type) :=
  | Normal (a : A)
  | Thrown (e : JsError).
Arguments Normal {A} a.
Arguments Thrown {A} e.

Definition M (A : Type) : Type := Handler → Completion A * Handler * list Effect.

#[global] Instance M_ret : MRet M := λ A a h, (Normal a, h, []).

#[global] Instance M_bind : MBind M := λ A B f m h,
  match m h with
  | (Normal a, h1, es1) =>
      match f a h1 with (c, h2, es2) => (c, h2, es1 ++ es2) end
  | (Thrown e, h1, es1) => (Thrown e, h1, es1)
  end.

Definition get : M Handler := λ h, (Normal h, h, []).
Definition modify (f : Handler → Handler) : M unit := λ h, (Normal tt, f h, []).
Definition emit (e : Effect) : M unit := λ h, (Normal tt, h, [e]).
Definition throw {A} (e : JsError) : M A := λ h, (Thrown e, h, []).
Definition skip : M unit := mret tt.

(** [for (const x of l) body(x)] *)
Fixpoint for_each {A} (l : list A) (body : A → M unit) : M unit :=
  match l with
  | [] => skip
  | x :: rest => body x;; for_each rest body
  end.

(** [me.worker]: dereferencing null throws. *)
Definition the_worker (prop : string) : M Worker :=
  me ← get;
  if worker me then mret (transport me)
  else throw (new_TypeError ("Cannot read properties of null (reading '" +:+ prop +:+ "')")).

(** [me.worker.ready = b] *)
Definition set_worker_ready (b : bool) : M unit :=
  w ← the_worker "ready";
  modify (set_transport (set_ready b w)).

(** [me.worker.killed = true] *)
Definition set_worker_killed : M unit :=
  w ← the_worker "killed";
  modify (set_transport (set_killed true w)).

(** [me.worker.send(m)] *)
Definition worker_send (m : Outgoing) : M unit :=
  _ ← the_worker "send";
  emit (Send m).

(** ** The closures of the constructor *)

(** this.onWorkerExit: calls the option once, then forgets it. *)
Definition onWorkerExit : M unit :=
  me ← get;
  (if _onWorkerExit me then emit CallOnWorkerExit else skip);;
  modify (set__onWorkerExit false).

(** this.onWorkerReady: calls the option whenever it is there. *)
Definition onWorkerReady : M unit :=
  me ← get;
  if _onWorkerReady me then emit CallOnWorkerReady else skip.

Definition clearReadyTimeout : M unit :=
  me ← get;
  match readyTimeoutTimer me with
  | None => skip
  | Some _ =>
      emit (ClearTimeout ReadyTimeoutTimer);;
      modify (set_readyTimeoutTimer None)
  end.

(** [!timeoutDuration]: undefined and 0 arm nothing. *)
Definition duration_falsy (d : option N) : bool :=
  match d with
  | None => true
  | Some ms => (ms =? 0)%N
  end.

Definition setReadyTimeout (timeoutDuration : option N) : M unit :=
  clearReadyTimeout;;
  if duration_falsy timeoutDuration then skip
  else
    emit (SetTimeout ReadyTimeoutTimer (default 0%N timeoutDuration));;
    modify (set_readyTimeoutTimer timeoutDuration).

(** The setInterval callback. *)
Definition resetStats : M unit :=
  me ← get;
  let s := stats me in
  modify (set_stats (mkStats (requestCount s) (responseCount s) (totalTime s)
                       None 0 (lastTime s))).

(** [for (var id in me.processing)]: integer keys come in ascending order. *)
Definition key_le (a b : nat * Task) : Prop := a.1 ≤ b.1.

#[global] Instance key_le_dec a b : Decision (key_le a b) := decide (a.1 ≤ b.1).

Definition for_in (p : gmap nat Task) : list (nat * Task) :=
  merge_sort key_le (map_to_list p).

(** reject all running tasks on worker error *)
Definition onError (error : JsError) : M unit :=
  modify (set_terminated true);;
  me ← get;
  for_each (for_in (processing me))
    (λ entry, emit (Reject (resolver entry.2) error));;
  modify (set_processing ∅);;
  onWorkerExit.

(** send all queued requests to worker *)
Definition dispatchQueuedRequests : M unit :=
  me ← get;
  let queued := requestQueue me in      (* splice(0) *)
  modify (set_requestQueue []);;
  for_each queued worker_send.

Definition nl : string := String (Ascii.ascii_of_nat 10) "".

(** The text the "exit" listener builds. *)
Definition exit_message (script : string) (w : Worker) (exitCode signalCode : Value) : string :=
  "Workerpool Worker terminated Unexpectedly" +:+ nl
  +:+ "    exitCode: `" +:+ to_string exitCode +:+ "`" +:+ nl
  +:+ "    signalCode: `" +:+ to_string signalCode +:+ "`" +:+ nl
  +:+ "    workerpool.script: `" +:+ script +:+ "`" +:+ nl
  +:+ "    spawnArgs: `" +:+ attr_to_string (spawnargs w) +:+ "`" +:+ nl
  +:+ "    spawnfile: `" +:+ attr_to_string (spawnfile w) +:+ "`" +:+ nl
  +:+ "    stdout: `" +:+ attr_to_string (stdout w) +:+ "`" +:+ nl
  +:+ "    stderr: `" +:+ attr_to_string (stderr w) +:+ "`" +:+ nl.

(** The listener of worker.on("exit", ...) set up by the constructor. *)
Definition onExit (exitCode signalCode : Value) : M unit :=
  me ← get;
  onError (new_Error (exit_message (script me) (transport me) exitCode signalCode)).

(** ** busy, available *)

Definition busy (h : Handler) : bool :=
  concurrency h <=? size (processing h).

Definition available (h : Handler) : bool :=
  worker h && negb (terminated h) && negb (terminating h)
  && ready (transport h)
  && ((maxExec h =? 0) || (requestCount (stats h) <? maxExec h))
  && negb (busy h).

(** ** terminate *)

Definition callTerminationHandler (cb : TermCallback) (err : option JsError) : M unit :=
  match cb with
  | UserCallback f => emit (CallTerminationHandler f err)
  | NotifyCallback d =>
      match err with
      | Some e => emit (RejectTermination d e)
      | None => emit (ResolveTermination d)
      end
  end.

Definition cleanup (err : option JsError) : M unit :=
  modify (set_terminated true);;
  me ← get;
  (if worker me && has_removeAllListeners (kind (transport me))
   then emit (RemoveAllListeners "message") else skip);;
  modify (set_worker false);;
  modify (set_terminating false);;
  match terminationHandler me with
  | Some cb => callTerminationHandler cb err
  | None =>
      match err with
      | Some e => throw e
      | None => skip
      end
  end.

Definition terminate (force : bool) (callback : option TermCallback) : M unit :=
  clearReadyTimeout;;
  (if force then
     (* cancel all tasks in progress *)
     me ← get;
     for_each (for_in (processing me))
       (λ entry, emit (Reject (resolver entry.2) (new_Error "Worker terminated")));;
     modify (set_processing ∅)
   else skip);;
  match callback with
  | Some cb => modify (set_terminationHandler (Some cb))
  | None => skip
  end;;
  me ← get;
  if negb (busy me) then
    (* all tasks are finished. kill the worker *)
    if worker me then
      let w := transport me in
      if has_kill (kind w) then
        if killed w then cleanup (Some (new_Error "worker already killed!"))
        else if isChildProcess (kind w) then
          emit (SetTimeout CleanExitTimeout CHILD_PROCESS_EXIT_TIMEOUT);;
          emit OnceExit;;
          modify (set_exitListeners (S (exitListeners me)));;
          if ready w then worker_send (OString TERMINATE_METHOD_ID)
          else modify (set_requestQueue (requestQueue me ++ [OString TERMINATE_METHOD_ID]))
        else
          (* worker_thread *)
          emit Kill;;
          set_worker_killed;;
          cleanup None
      else if has_terminate (kind w) then
        emit WorkerTerminate;;      (* web worker *)
        set_worker_killed;;
        cleanup None
      else throw (new_Error "Failed to terminate worker")
    else cleanup None
  else
    (* we can't terminate immediately, there are still tasks being executed *)
    modify (set_terminating true).

(** The listener terminate adds with worker.once("exit", ...). *)
Definition onceExit : M unit :=
  emit (ClearTimeout CleanExitTimeout);;
  me ← get;
  (if worker me then set_worker_killed else skip);;
  cleanup None.

(** The callback of the CHILD_PROCESS_EXIT_TIMEOUT timer:
    [if (me.worker) me.worker.kill()].  The worker is a child process
    that has not exited, and kill() of node.js, having delivered the
    signal, records it in [worker.killed]. *)
Definition cleanExitTimeout : M unit :=
  me ← get;
  if worker me then
    emit Kill;;
    set_worker_killed
  else skip.

(** The callback of the readiness timer: [me.terminate()]. *)
Definition readyTimeout : M unit :=
  terminate false None.

(** Modelled from the spec: the deferred of Promise.defer(), whose module
    (./Promise) is not among the sources.  The spec has it as "a
    single-settlement promise-like handle with cancellation and timeout
    variants": [timeout] is a method of the promise, so an assignment to
    [promise.timeout] replaces the method by the assigned value.  What a
    terminateAndNotify call hands back is the promise of deferred [d]
    together with the value stored in that property. *)
Record TerminationPromise := mkTerminationPromise {
  deferred : nat;
  timeout_property : option N
}.

(** [resolver.promise.timeout = timeout] stores a number in a property of
    the promise object; nothing is called and no timer is armed. *)
Definition terminateAndNotify (force : bool) (timeout : option N) (d : nat)
  : M TerminationPromise :=
  let promise :=
    mkTerminationPromise d (if duration_falsy timeout then None else timeout) in
  terminate force (Some (NotifyCallback d));;
  mret promise.

(** ** exec *)

Definition exec (now : Z) (method : string) (params : Value)
    (resolver : option Resolver) (options : option ExecOptions) : M Resolver :=
  me ← get;
  (* generate a unique id for the task *)
  let id := S (lastId me) in
  let resolver := default (OwnDeferred id) resolver in
  modify (set_lastId id);;
  (* register a new task as being in progress *)
  modify (set_processing (<[id := mkTask id resolver options now]> (processing me)));;
  let s := stats me in
  modify (set_stats (mkStats (S (requestCount s)) (responseCount s) (totalTime s)
                       (minTime s) (maxTime s) (lastTime s)));;
  let request := ORequest (mkRequest id method params) in
  (if terminated me then emit (Reject resolver (new_Error "Worker is terminated"))
   else
     w ← the_worker "ready";
     if ready w then worker_send request
     else modify (set_requestQueue (requestQueue me ++ [request])));;
  mret resolver.

Definition methods (now : Z) : M Resolver :=
  exec now "methods" VUndefined None None.

(** The catch handler exec attaches to the promise, on a
    CancellationError or TimeoutError of task [id]. *)
Definition onCancelled (id : nat) (d : nat) : M unit :=
  me ← get;
  modify (set_processing (delete id (processing me)));;
  _ ← terminateAndNotify true None d;
  skip.

(** ** The "message" listener *)

Definition record_response (timeSpent : Z) (s : Stats) : Stats :=
  let maxTime' := if (maxTime s <? timeSpent)%Z then timeSpent else maxTime s in
  let minTime' :=
    match minTime s with
    | None => Some timeSpent
    | Some m => if (timeSpent <? m)%Z then Some timeSpent else Some m
    end in
  mkStats (requestCount s) (S (responseCount s)) (totalTime s + timeSpent)
    minTime' maxTime' timeSpent.

(** [if (this.maxExec && this.responseCount >= this.maxExec)], with the
    [this] of the listener. *)
Definition maxExec_check : M unit :=
  me ← get;
  match listener_this (kind (transport me)) with
  | ThisUndefined =>
      throw (new_TypeError "Cannot read properties of undefined (reading 'maxExec')")
  | ThisTransport =>
      let this_maxExec := transport_get (transport me) "maxExec" in
      let this_responseCount := transport_get (transport me) "responseCount" in
      if truthy this_maxExec && js_ge this_responseCount this_maxExec then
        modify (set_terminating true);;
        onWorkerExit
      else skip
  end.

Definition onMessage (now : Z) (response : Message) : M unit :=
  me ← get;
  if terminated me then skip
  else
    match response with
    | MString s =>
        if String.eqb s "ready" then
          clearReadyTimeout;;
          set_worker_ready true;;
          onWorkerReady;;
          dispatchQueuedRequests
        else skip      (* response.id is undefined: no such task *)
    | MObject response =>
        (* find the task from the processing queue, and run the tasks callback *)
        let id := resp_id response in
        match processing me !! id with
        | None => skip
        | Some task =>
            if isEvent response then
              match options task with
              | Some (mkExecOptions (Some f)) => emit (CallOn f (payload response))
              | _ => skip
              end
            else
              let timeSpent := (now - started task)%Z in
              modify (set_stats (record_response timeSpent (stats me)));;
              (if markNotReadyAfterExec me then
                 set_worker_ready false;;
                 setReadyTimeout (readyTimeoutDuration me)
               else skip);;
              (* remove the task from the queue *)
              modify (set_processing (delete id (processing me)));;
              maxExec_check;;
              (* test if we need to terminate *)
              me' ← get;
              (if terminating me' then terminate false None else skip);;
              (* resolve the task's promise *)
              match error response with
              | Some e =>
                  if descriptor_truthy e
                  then emit (Reject (resolver task) (objectToError e))
                  else emit (Resolve (resolver task) (result response))
              | None => emit (Resolve (resolver task) (result response))
              end
        end
    end.

(** The "exit" event reaches the constructor's listener first, then the
    listeners terminate added with once, each of which runs one time. *)
Fixpoint run_onceExit (n : nat) : M unit :=
  match n with
  | 0 => skip
  | S n' => onceExit;; run_onceExit n'
  end.

Definition exitEvent (exitCode signalCode : Value) : M unit :=
  onExit exitCode signalCode;;
  me ← get;
  modify (set_exitListeners 0);;
  run_onceExit (exitListeners me).

(** ** The constructor *)

Module Opt.
Record t := mk {
  concurrency : option nat;
  maxExec : option nat;
  markNotReadyAfterExec : bool;
  readyTimeoutDuration : option N;
  initReadyTimeoutDuration : option N;
  onWorkerExit : bool;       (* a callback was passed *)
  onWorkerReady : bool
}.
End Opt.

(** [!script] *)
Definition script_falsy (script : option string) : bool :=
  match script with
  | None => true
  | Some s => String.eqb s ""
  end.

(** [new WorkerHandler(script, options)].  [defaultWorker] is what
    getDefaultWorker() returns on this host and [w] the object that
    setupWorker returns. *)
Definition WorkerHandler (script : option string) (options : Opt.t)
    (defaultWorker : string) (w : Worker) : Handler * list Effect :=
  let this :=
    mkHandler
      (if script_falsy script then defaultWorker else default "" script)
      w true
      (match Opt.concurrency options with
       | None | Some 0 => 1
       | Some c => c
       end)
      (default 0 (Opt.maxExec options))
      (Opt.markNotReadyAfterExec options)
      (Opt.readyTimeoutDuration options)
      (match Opt.initReadyTimeoutDuration options with
       | None => Opt.readyTimeoutDuration options
       | Some d => Some d
       end)
      (mkStats 0 0 0 None 0 0)
      (Opt.onWorkerExit options) (Opt.onWorkerReady options)
      None [] ∅ false false None 0 0 in
  let body : M unit :=
    emit (SetInterval (1000 * 60 * 5));;
    (if script_falsy script then
       set_worker_ready true;;
       onWorkerReady
     else skip);;
    setReadyTimeout (initReadyTimeoutDuration this) in
  match body this with
  | (_, h, es) => (h, es)
  end.

(** ** The handler as a state machine: one operation per callback *)

Inductive Op :=
  | OpExec (now : Z) (method : string) (params : Value)
      (resolver : option Resolver) (options : option ExecOptions)
  | OpMessage (now : Z) (m : Message)
  | OpError (e : JsError)
  | OpExit (exitCode signalCode : Value)
  | OpReadyTimeout
  | OpCleanExitTimeout
  | OpResetStats
  | OpTerminate (force : bool) (callback : option nat)
  | OpTerminateAndNotify (force : bool) (timeout : option N) (d : nat)
  | OpCancelled (id : nat) (d : nat).

Definition step (op : Op) : M unit :=
  match op with
  | OpExec now method params resolver options =>
      _ ← exec now method params resolver options; skip
  | OpMessage now m => onMessage now m
  | OpError e => onError e
  | OpExit exitCode signalCode => exitEvent exitCode signalCode
  | OpReadyTimeout => readyTimeout
  | OpCleanExitTimeout => cleanExitTimeout
  | OpResetStats => resetStats
  | OpTerminate force callback => terminate force (UserCallback <$> callback)
  | OpTerminateAndNotify force timeout d =>
      _ ← terminateAndNotify force timeout d; skip
  | OpCancelled id d => onCancelled id d
  end.

(** One callback run to its end; an exception that leaves it is logged. *)
Definition apply_op (op : Op) (h : Handler) : Handler * list Effect :=
  match step op h with
  | (Normal _, h', es) => (h', es)
  | (Thrown e, h', es) => (h', es ++ [Uncaught e])
  end.

Fixpoint run (ops : list Op) (h : Handler) : Handler * list Effect :=
  match ops with
  | [] => (h, [])
  | op :: rest =>
      let '(h1, es1) := apply_op op h in
      let '(h2, es2) := run rest h1 in
      (h2, es1 ++ es2)
  end.

(** A handler from its construction on. *)
Definition lifetime (script : option string) (options : Opt.t)
    (defaultWorker : string) (w : Worker) (ops : list Op) : Handler * list Effect :=
  let '(h0, es0) := WorkerHandler script options defaultWorker w in
  let '(h, es) := run ops h0 in
  (h, es0 ++ es).

(** Counting and selecting effects. *)
Definition is_CallOnWorkerExit (e : Effect) : bool :=
  match e with CallOnWorkerExit => true | _ => false end.

Definition is_CallOnWorkerReady (e : Effect) : bool :=
  match e with CallOnWorkerReady => true | _ => false end.

Definition is_Reject (e : Effect) : bool :=
  match e with Reject _ _ => true | _ => false end.

Definition count (p : Effect → bool) (es : list Effect) : nat :=
  length (filter (λ e, p e = true) es).

(** The messages handed to worker.send, in order. *)
Definition sent (es : list Effect) : list Outgoing :=
  omap (λ e, match e with Send m => Some m | _ => None end) es.

(** ** Vocabulary of the statements *)

(** The event sink of a task: [task.options.on] when it is a function. *)
Definition event_sink (task : Task) : option nat :=
  match options task with
  | Some o => on o
  | None => None
  end.

(** [part] occurs in [s]. *)
Definition includes (s part : string) : Prop :=
  ∃ pre post, s = pre +:+ part +:+ post.

(** The arguments of one exec call. *)
Record Call := mkCall {
  call_now : Z;
  call_method : string;
  call_params : Value;
  call_resolver : option Resolver;
  call_options : option ExecOptions
}.

Definition op_of_call (c : Call) : Op :=
  OpExec (call_now c) (call_method c) (call_params c) (call_resolver c) (call_options c).

(** The request messages of a series of exec calls on a handler whose
    last task id was [lastId], in submission order. *)
Fixpoint requests_from (lastId : nat) (calls : list Call) : list Outgoing :=
  match calls with
  | [] => []
  | c :: rest =>
      ORequest (mkRequest (S lastId) (call_method c) (call_params c))
      :: requests_from (S lastId) rest
  end.

(** What the handler does to the outside on a transport failure: every
    task of the in-flight table is rejected with [error], then the
    onWorkerExit option is called if the handler still holds it. *)
Definition failure_effects (h : Handler) (error : JsError) : list Effect :=
  map (λ entry, Reject (resolver entry.2) error) (for_in (processing h))
  ++ (if _onWorkerExit h then [CallOnWorkerExit] else []).

(** terminated ⇒ the in-flight table is empty *)
Definition terminated_empty (h : Handler) : Prop :=
  terminated h = true → processing h = ∅.

Definition is_exec (op : Op) : bool :=
  match op with OpExec _ _ _ _ _ => true | _ => false end.

(** The calls of the onWorkerExit option the handler can still make. *)
Definition exit_budget (h : Handler) : nat :=
  if _onWorkerExit h then 1 else 0.

(** A step never calls the onWorkerExit option more often than the
    budget allows, and uses the budget up. *)
Definition spends_exit (h : Handler) (es : list Effect) (h' : Handler) : Prop :=
  count is_CallOnWorkerExit es + exit_budget h' ≤ exit_budget h.

(** A handler that is not terminated after a step was not terminated
    before it and holds the same onWorkerExit callback. *)
Definition keeps_exit_callback (h : Handler) (es : list Effect) (h' : Handler) : Prop :=
  terminated h' = false →
  terminated h = false ∧ _onWorkerExit h' = _onWorkerExit h.

(** The worker's readiness signal, delivered at time [now]. *)
Definition ready_signal (now : Z) : Op := OpMessage now (MString "ready").

Definition is_ready_signal (op : Op) : bool :=
  match op with
  | OpMessage _ (MString s) => String.eqb s "ready"
  | _ => false
  end.

(** The "ready" signals among [ops] that the handler processes: those
    that arrive while it is not terminated (a terminated handler drops
    every message). *)
Fixpoint signals_processed (ops : list Op) (h : Handler) : nat :=
  match ops with
  | [] => 0
  | op :: rest =>
      (if is_ready_signal op && negb (terminated h) then 1 else 0)
      + signals_processed rest (apply_op op h).1
  end.

(** A step that does not call the onWorkerReady option and keeps it; a
    handler that is not terminated afterwards was not terminated before
    and has the worker reference it had. *)
Definition no_ready_call (h : Handler) (es : list Effect) (h' : Handler) : Prop :=
  count is_CallOnWorkerReady es = 0
  ∧ _onWorkerReady h' = _onWorkerReady h
  ∧ (terminated h' = false → terminated h = false ∧ worker h' = worker h).

(** Every exec among [ops] is called on a handler that is not
    terminated. *)
Fixpoint execs_on_live (ops : list Op) (h : Handler) : Prop :=
  match ops with
  | [] => True
  | op :: rest =>
      (is_exec op = true → terminated h = false)
      ∧ execs_on_live rest (apply_op op h).1
  end.

(** [post m h Q]: running [m] on [h] ends in a completion, a handler and
    effects that satisfy [Q]. *)
Definition post {A} (m : M A) (h : Handler)
    (Q : Completion A → Handler → list Effect → Prop) : Prop :=
  match m h with (c, h', es) => Q c h' es end.
Arguments post : simpl never.

(** The invariant under test together with the default concurrency. *)
Definition keeps (h : Handler) : Prop :=
  terminated_empty h ∧ concurrency h = 1.

(** ** Handlers and messages used as examples *)

Module Fixture.

Definition process_worker : Worker :=
  mkWorker ChildProcess false false
    (AArray ["/usr/bin/node"; "my-worker.js"]) (AString "/usr/bin/node") ANull ANull.

Definition thread_worker : Worker :=
  mkWorker WorkerThread false false AUndefined AUndefined AObject AObject.

(** Options with both callbacks and nothing else. *)
Definition callbacks_only : Opt.t := Opt.mk None None false None None true true.

(** [maxExec: 1] *)
Definition maxExec_one : Opt.t := Opt.mk None (Some 1) false None None true true.

(** [concurrency: 2] *)
Definition concurrency_two : Opt.t := Opt.mk (Some 2) None false None None true true.

(** [readyTimeoutDuration: 500] *)
Definition ready_in_500ms : Opt.t := Opt.mk None None false (Some 500%N) None true true.

(** exec("echo", n) at time [now] *)
Definition echo (now : Z) (n : Z) : Op := OpExec now "echo" (VNum n) None None.

Definition echo_call (now : Z) (n : Z) : Call := mkCall now "echo" (VNum n) None None.

(** The response [{id, result: n}] *)
Definition echo_result (id : nat) (n : Z) : Response :=
  mkResponse id false VUndefined None (VNum n).

(** A handler on the default worker with one task in flight. *)
Definition one_in_flight : Handler :=
  (lifetime None callbacks_only "worker.js" process_worker [echo 0 42]).1.

(** A handler with room for two tasks and one task in flight. *)
Definition half_loaded : Handler :=
  (lifetime None concurrency_two "worker.js" thread_worker [echo 0 42]).1.

(** A handler that was terminated while idle. *)
Definition terminated_idle : Handler :=
  (lifetime None callbacks_only "worker.js" thread_worker [OpTerminate false None]).1.


(** A fresh handler on a script of the caller's, not ready yet. *)
Definition not_ready : Handler :=
  (WorkerHandler (Some "my-worker.js") callbacks_only "worker.js" process_worker).1.

(** A task that streams events to the sink 7. *)
Definition streaming_task : Task :=
  mkTask 1 (OwnDeferred 1) (Some (mkExecOptions (Some 7))) 0.

Definition streaming : Handler :=
  (lifetime None callbacks_only "worker.js" thread_worker
     [OpExec 0 "stream" VUndefined None (Some (mkExecOptions (Some 7)))]).1.

Definition event (id : nat) (p : string) : Response :=
  mkResponse id true (VStr p) None VUndefined.

(** Two tasks in flight on a handler that takes two at a time. *)
Definition two_in_flight : Handler :=
  (lifetime None concurrency_two "worker.js" process_worker [echo 0 1; echo 1 2]).1.

End Fixture.

(** A computation respects the relation [R] between the handler before,
    the effects and the handler after. *)
Definition respects (R : Handler → list Effect → Handler → Prop) {A} (m : M A) : Prop :=
  ∀ h, match m h with (_, h', es) => R h es h' end.

(** ** Vocabulary of the further properties *)

(** The options of the constructor, which no callback writes again. *)
Definition same_config (h h' : Handler) : Prop :=
  script h' = script h ∧ concurrency h' = concurrency h ∧ maxExec h' = maxExec h
  ∧ markNotReadyAfterExec h' = markNotReadyAfterExec h
  ∧ readyTimeoutDuration h' = readyTimeoutDuration h
  ∧ initReadyTimeoutDuration h' = initReadyTimeoutDuration h.

(** What terminate leaves alone: the options, the id counter and the
    statistics; and a handler that is not terminated afterwards was not
    terminated before and still has the worker reference it had. *)
Definition bookkeeping_kept (h h' : Handler) : Prop :=
  same_config h h' ∧ lastId h' = lastId h ∧ stats h' = stats h
  ∧ _onWorkerReady h' = _onWorkerReady h
  ∧ (terminated h' = false → terminated h = false ∧ worker h' = worker h).

(** Every record of the in-flight table sits under its own id, and the
    ids in use run from 1 to lastId at most. *)
Definition ids_bounded (h : Handler) : Prop :=
  ∀ i task, processing h !! i = Some task → id task = i ∧ 1 ≤ i ≤ lastId h.

(** Responses counted and tasks still in flight never exceed the requests
    counted. *)
Definition counters_consistent (h : Handler) : Prop :=
  responseCount (stats h) + size (processing h) ≤ requestCount (stats h).

(** minTime ≤ lastTime ≤ maxTime *)
Definition stats_ordered (s : Stats) : Prop :=
  match minTime s with
  | Some m => (m ≤ lastTime s)%Z
  | None => False
  end
  ∧ (lastTime s ≤ maxTime s)%Z.

(** The settlements of task promises among the effects, in order. *)
Definition is_settlement (e : Effect) : bool :=
  match e with Reject _ _ | Resolve _ _ => true | _ => false end.

Definition settlements (es : list Effect) : list Effect :=
  filter (λ e, is_settlement e = true) es.

(** The rejections of task promises among the effects, in order. *)
Definition rejections (es : list Effect) : list (Resolver * JsError) :=
  omap (λ e, match e with Reject r err => Some (r, err) | _ => None end) es.

(** How a terminal response settles its task. *)
Definition settlement (task : Task) (r : Response) : Effect :=
  match error r with
  | Some e =>
      if descriptor_truthy e
      then Reject (resolver task) (objectToError e)
      else Resolve (resolver task) (result r)
  | None => Resolve (resolver task) (result r)
  end.

(** A handler counts as being on node.js when its message listener runs
    with the worker as [this]. *)
Definition on_node (h : Handler) : Prop :=
  listener_this (kind (transport h)) = ThisTransport.

(** What holds of a handler from its construction on: the ids of the
    table are bounded, the counters are consistent, and the worker
    reference is dropped only by a handler that is terminated. *)
Definition lifetime_inv (h : Handler) : Prop :=
  ids_bounded h ∧ counters_consistent h ∧ (terminated h = false → worker h = true).

(** From one state to a later one: the options stay, the counters and
    the id counter do not decrease, a terminated handler stays terminated. *)
Definition grows (h h' : Handler) : Prop :=
  same_config h h'
  ∧ lastId h ≤ lastId h'
  ∧ requestCount (stats h) ≤ requestCount (stats h')
  ∧ responseCount (stats h) ≤ responseCount (stats h')
  ∧ (terminated h = true → terminated h' = true).

(** Settlements of the promise of terminateAndNotify's deferred [d]. *)
Definition is_ResolveTermination (d : nat) (e : Effect) : bool :=
  match e with ResolveTermination d' => Nat.eqb d d' | _ => false end.

Definition is_RejectTermination (e : Effect) : bool :=
  match e with RejectTermination _ _ => true | _ => false end.

Definition is_Kill (e : Effect) : bool :=
  match e with Kill | WorkerTerminate => true | _ => false end.

(** The callback cleanup will call after terminate(force, callback). *)
Definition effective_handler (callback : option TermCallback) (h : Handler)
  : option TermCallback :=
  match callback with
  | Some cb => Some cb
  | None => terminationHandler h
  end.

(** The delay of the constructor's readiness timer:
    [options.initReadyTimeoutDuration == null ? this.readyTimeoutDuration
     : options.initReadyTimeoutDuration]. *)
Definition init_duration (options : Opt.t) : option N :=
  match Opt.initReadyTimeoutDuration options with
  | None => Opt.readyTimeoutDuration options
  | Some d => Some d
  end.

(** ** Further handlers used as examples *)

Module Sample.

(** A handler made with [maxExec: 1] that has run its one task. *)
Definition spent : Handler :=
  (lifetime None Fixture.maxExec_one "worker.js" Fixture.process_worker
     [Fixture.echo 0 42; OpMessage 5 (MObject (Fixture.echo_result 1 42))]).1.

(** A handler on a web worker with one task in flight. *)
Definition browser_worker : Worker :=
  mkWorker BrowserWorker false false AUndefined AUndefined AUndefined AUndefined.

Definition in_browser : Handler :=
  (lifetime None Fixture.callbacks_only "blob:worker" browser_worker [Fixture.echo 0 42]).1.

(** [markNotReadyAfterExec: true, readyTimeoutDuration: 500] *)
Definition one_shot_ready : Opt.t :=
  Opt.mk None None true (Some 500%N) None true true.

(** A handler that asks for a new "ready" after each task, one task in
    flight. *)
Definition re_arming : Handler :=
  (lifetime (Some "my-worker.js") one_shot_ready "worker.js" Fixture.thread_worker
     [ready_signal 0; Fixture.echo 1 42]).1.

(** A handler on a child process that has already been killed. *)
Definition killed_process : Handler :=
  (WorkerHandler None Fixture.callbacks_only "worker.js"
     (mkWorker ChildProcess false true AUndefined AUndefined ANull ANull)).1.

End Sample.

(** ** Creating the worker object *)

Module Setup.

(** [s.indexOf(pat)]; [None] stands for -1. *)
Definition indexOf (s pat : string) : option nat := String.index 0 pat s.

(** [i !== -1], [i > -1] *)
Definition found (i : option nat) : bool :=
  match i with Some _ => true | None => false end.

(** [v === s] for a string literal [s] *)
Definition is_string (v : Value) (s : string) : bool :=
  match v with VStr t => String.eqb t s | _ => false end.

Inductive Platform := Browser | Node.

(** Modelled from the spec: the modules ./environment and
    ./requireFoolWebpack are not among the sources.  The host is an
    injected read-only record: the platform is "browser" or a
    non-browser platform, requiring a module gives the module or throws,
    and reading process.execArgv gives the host's argument vector or
    throws where there is no such object. *)
Record Host := mkHost {
  platform : Platform;                       (* environment.platform *)
  web_worker : bool;                         (* the typeof tests on Worker succeed *)
  worker_threads : Completion unit;          (* requireFoolWebpack("worker_threads") *)
  child_process : Completion unit;           (* requireFoolWebpack("child_process") *)
  process_execArgv : Completion (list string)
}.

(** error.code === "MODULE_NOT_FOUND", for an error object *)
Definition module_not_found (error : JsError) : bool :=
  is_string (get_prop (own error) "code") "MODULE_NOT_FOUND".

(** The result is [true] for the module and [false] for null. *)
Definition tryRequireWorkerThreads (host : Host) : Completion bool :=
  match worker_threads host with
  | Normal _ => Normal true
  | Thrown error =>
      if module_not_found error then Normal false else Thrown error
  end.

Definition ensureWorkerThreads (host : Host) : Completion unit :=
  match tryRequireWorkerThreads host with
  | Thrown e => Thrown e
  | Normal WorkerThreads =>
      if negb WorkerThreads then
        Thrown (new_Error
          "WorkerPool: workerType = 'thread' is not supported, Node >= 11.7.0 required")
      else Normal tt
  end.

Definition ensureWebWorker (host : Host) : Completion unit :=
  if negb (web_worker host) then
    Thrown (new_Error "WorkerPool: Web Workers not supported")
  else Normal tt.

(** options.forkOpts: the execArgv array, if any, and every other
    property. *)
Record ForkOpts := mkForkOpts {
  execArgv : option (list string);
  rest : Props
}.

(** The options setupWorker reads. *)
Record Options := mkOptions {
  workerType : Value;
  workerThreadOpts : option Props;
  debugPort : Value;
  forkArgs : Value;
  forkOpts : option ForkOpts
}.

Definition resolveForkOptions (host : Host) (opts : Options) : Completion Options :=
  match process_execArgv host with
  | Thrown e => Thrown e
  | Normal argv =>
      let processExecArgv := String.concat " " argv in
      let inspectorActive := found (indexOf processExecArgv "--inspect") in
      let debugBrk := found (indexOf processExecArgv "--debug-brk") in
      let execArgv0 : list string := [] in
      let execArgv1 :=
        if inspectorActive then
          let pushed := execArgv0 ++ ["--inspect=" +:+ to_string (debugPort opts)] in
          if debugBrk then pushed ++ ["--debug-brk"] else pushed
        else execArgv0 in
      let execArgv2 :=
        foldl (λ acc arg,
                 if found (indexOf arg "--max-old-space-size")
                 then acc ++ [arg] else acc)
              execArgv1 argv in
      Normal
        (mkOptions (workerType opts) (workerThreadOpts opts) (debugPort opts)
           (forkArgs opts)
           (Some (mkForkOpts
                    (Some (default [] (forkOpts opts ≫= execArgv) ++ execArgv2))
                    (from_option rest ∅ (forkOpts opts)))))
  end.

(** The worker object, by the call that made it. *)
Inductive Spawn :=
  | NewWorker (script : string)
  | NewThreadWorker (script : string) (options : Props)
  | Fork (script : string) (args : Value) (opts : option ForkOpts).

(** The flag the setup function stores on the object. *)
Definition kind_of (w : Spawn) : WorkerKind :=
  match w with
  | NewWorker _ => BrowserWorker
  | NewThreadWorker _ _ => WorkerThread
  | Fork _ _ _ => ChildProcess
  end.

Definition script_of (w : Spawn) : string :=
  match w with
  | NewWorker s | NewThreadWorker s _ | Fork s _ _ => s
  end.

Definition setupBrowserWorker (script : string) : Spawn := NewWorker script.

(** {stdout: false, stderr: false, ...workerThreadOptions} *)
Definition setupWorkerThreadWorker (script : string)
    (workerThreadOptions : option Props) : Spawn :=
  NewThreadWorker script
    (default ∅ workerThreadOptions
       ∪ {[ "stdout" := VBool false; "stderr" := VBool false ]}).

Definition setupProcessWorker (script : string) (options : Options) : Spawn :=
  Fork script (forkArgs options) (forkOpts options).

Definition setupWorker (host : Host) (script : string) (options : Options)
  : Completion Spawn :=
  if is_string (workerType options) "web" then
    match ensureWebWorker host with
    | Thrown e => Thrown e
    | Normal _ => Normal (setupBrowserWorker script)
    end
  else if is_string (workerType options) "thread" then
    match ensureWorkerThreads host with
    | Thrown e => Thrown e
    | Normal _ =>
        Normal (setupWorkerThreadWorker script (workerThreadOpts options))
    end
  else if is_string (workerType options) "process"
          || negb (truthy (workerType options)) then
    match resolveForkOptions host options with
    | Thrown e => Thrown e
    | Normal resolved =>
        match child_process host with
        | Thrown e => Thrown e
        | Normal _ => Normal (setupProcessWorker script resolved)
        end
    end
  else
    match platform host with
    | Browser =>
        match ensureWebWorker host with
        | Thrown e => Thrown e
        | Normal _ => Normal (setupBrowserWorker script)
        end
    | Node =>
        match tryRequireWorkerThreads host with
        | Thrown e => Thrown e
        | Normal true =>
            Normal (setupWorkerThreadWorker script (workerThreadOpts options))
        | Normal false =>
            match resolveForkOptions host options with
            | Thrown e => Thrown e
            | Normal resolved =>
                match child_process host with
                | Thrown e => Thrown e
                | Normal _ => Normal (setupProcessWorker script resolved)
                end
            end
        end
    end.


(** Hosts used as examples. *)
Definition not_found : JsError :=
  mkError "Error" {[ "message" := VStr "Cannot find module 'worker_threads'";
                     "code" := VStr "MODULE_NOT_FOUND" ]}.

Definition debugged_node : Host :=
  mkHost Node false (Normal tt) (Normal tt)
    (Normal ["--inspect-brk=9229"; "--max-old-space-size=4096"; "--trace-warnings"]).

Definition old_node : Host :=
  mkHost Node false (Thrown not_found) (Normal tt) (Normal []).

Definition pool_options (workerType : Value) : Options :=
  mkOptions workerType (Some {[ "stdout" := VBool true; "argv" := VOpaque 0 ]})
    (VNum 43210) VUndefined
    (Some (mkForkOpts (Some ["--expose-gc"]) {[ "cwd" := VStr "/srv" ]})).

End Setup.

(** * Proofs *)

(** ** Error codec *)

Lemma assign_lookup temp p v k :
  k ≠ "__proto__" →
  own (assign temp p v) !! k = if decide (k = p) then Some v else own temp !! k.
Proof.
  intros Hk. unfold assign. destruct (String.eqb p "__proto__") eqn:Hp.
  - apply String.eqb_eq in Hp. subst p. by rewrite decide_False.
  - simpl. destruct (decide (k = p)) as [->|Hne].
    + apply lookup_insert_eq.
    + by apply lookup_insert_ne.
Qed.

Lemma copy_props_lookup obj props temp k :
  k ≠ "__proto__" →
  own (copy_props obj props temp) !! k =
    if decide (k ∈ props) then Some (get_prop obj k) else own temp !! k.
Proof.
  intros Hk. revert temp. induction props as [|p rest IH]; intros temp; simpl.
  - destruct (decide (k ∈ [])) as [Hin|Hin]; [by apply elem_of_nil in Hin | done].
  - rewrite IH, assign_lookup by done. destruct (decide (k ∈ rest)) as [Hr|Hr].
    + rewrite decide_True; [done | by right].
    + destruct (decide (k = p)) as [->|Hne].
      * rewrite decide_True; [done | by left].
      * rewrite decide_False; [done|].
        intros [?|?]%elem_of_cons; congruence.
Qed.

Lemma assign_proto temp p v :
  own (assign temp p v) !! "__proto__" = own temp !! "__proto__".
Proof.
  unfold assign. destruct (String.eqb p "__proto__") eqn:Hp; [done|].
  apply String.eqb_neq in Hp. simpl. by apply lookup_insert_ne.
Qed.

Lemma copy_props_proto obj props temp :
  own (copy_props obj props temp) !! "__proto__" = own temp !! "__proto__".
Proof.
  revert temp. induction props as [|p rest IH]; intros temp; simpl; [done|].
  by rewrite IH, assign_proto.
Qed.


Lemma elem_of_keys (obj : Props) k : k ∈ keys obj ↔ is_Some (obj !! k).
Proof.
  unfold keys. rewrite list_elem_of_fmap. split.
  - intros [[k' v] [-> Hin]]. apply elem_of_map_to_list in Hin. eauto.
  - intros [v Hv]. exists (k, v). split; [done|]. by apply elem_of_map_to_list.
Qed.

(** C9, as the code has it.  Decoding an error descriptor [d]: if [d] is
    a string, the error's message is that string; if [d] is an object,
    the error has every enumerable own property of [d] with the same
    value, except a property named [__proto__], which is not copied: the
    error never has an own property of that name. *)
Theorem objectToError_decodes (d : ErrorDescriptor) :
  match d with
  | DString s => own (objectToError d) !! "message" = Some (VStr s)
  | DObject obj =>
      (∀ k v, k ≠ "__proto__" → obj !! k = Some v →
              own (objectToError d) !! k = Some v)
      ∧ own (objectToError d) !! "__proto__" = None
  end.
Proof.
  destruct d as [s|obj]; simpl.
  - apply lookup_singleton_eq.
  - split.
    + intros k v Hne Hk. rewrite copy_props_lookup by done.
      rewrite decide_True; [|apply elem_of_keys; eauto].
      unfold get_prop. by rewrite Hk.
    + rewrite copy_props_proto. reflexivity.
Qed.

Lemma objectToError_decodes_witness :
  own (objectToError (DObject {[ "name" := VStr "RangeError"; "message" := VStr "oops" ]}))
    !! "name" = Some (VStr "RangeError").
Proof.
  apply (objectToError_decodes
           (DObject {[ "name" := VStr "RangeError"; "message" := VStr "oops" ]})).
  - discriminate.
  - vm_compute. reflexivity.
Defined.

(** C9 fails for a descriptor with an own property [__proto__], as
    JSON.parse makes it from the text {"__proto__": "x", ...}: the
    decoded error has no such property. *)
Lemma objectToError_drops_proto_key :
  let obj : Props := {[ "__proto__" := VStr "x"; "message" := VStr "oops" ]} in
  obj !! "__proto__" = Some (VStr "x")
  ∧ own (objectToError (DObject obj)) !! "__proto__" = None
  ∧ own (objectToError (DObject obj)) !! "message" = Some (VStr "oops").
Proof. vm_compute. repeat split. Qed.

(** ** Events of a task *)

(** C10. An [isEvent] message for a task of the in-flight table calls the
    task's [options.on] with the payload when there is one, and changes
    nothing: the handler is the same afterwards (task record, counters,
    timing, ready and termination flags) and no resolver is settled. *)
Theorem event_message_frame (h : Handler) (now : Z) (r : Response) (task : Task) :
  processing h !! resp_id r = Some task →
  isEvent r = true →
  onMessage now (MObject r) h =
    (Normal tt, h,
     if terminated h then []
     else match event_sink task with
          | Some f => [CallOn f (payload r)]
          | None => []
          end).
Proof.
  intros Hl He. unfold onMessage, event_sink, mbind, M_bind, get.
  destruct (terminated h); [reflexivity|].
  rewrite Hl, He.
  destruct (options task) as [[[f|]]|]; reflexivity.
Qed.

(** ** Running computations *)

Lemma for_each_emit {A} (f : A → Effect) (l : list A) (h : Handler) :
  for_each l (λ x, emit (f x)) h = (Normal tt, h, map f l).
Proof.
  induction l as [|x l IH]; simpl; [reflexivity|].
  unfold mbind, M_bind, emit at 1. by rewrite IH.
Qed.

Lemma for_each_worker_send (q : list Outgoing) (h : Handler) :
  worker h = true →
  for_each q worker_send h = (Normal tt, h, map Send q).
Proof.
  intros Hw. induction q as [|m q IH]; simpl; [reflexivity|].
  unfold mbind, M_bind, worker_send at 1, the_worker, mbind, M_bind, get, emit.
  rewrite Hw. simpl. by rewrite IH.
Qed.

Lemma sent_map_Send (q : list Outgoing) : sent (map Send q) = q.
Proof. induction q as [|m q IH]; simpl; [done|]. unfold sent in *. simpl. by rewrite IH. Qed.

Lemma sent_app (es1 es2 : list Effect) : sent (es1 ++ es2) = sent es1 ++ sent es2.
Proof. unfold sent. apply omap_app. Qed.

Lemma count_app p (es1 es2 : list Effect) : count p (es1 ++ es2) = count p es1 + count p es2.
Proof. unfold count. by rewrite filter_app, length_app. Qed.

Lemma count_nil p : count p [] = 0.
Proof. reflexivity. Qed.

Lemma count_cons p e (es : list Effect) :
  count p (e :: es) = (if p e then 1 else 0) + count p es.
Proof.
  unfold count. destruct (p e) eqn:Hp.
  - rewrite filter_cons_True; [done | exact Hp].
  - rewrite filter_cons_False; [done | congruence].
Qed.

(** ** Properties of a computation that compose along its steps

    [R h es h'] relates the handler before, the effects and the handler
    after.  When [R] holds of doing nothing and of doing one thing after
    another, a computation respects [R] as soon as its steps do, whatever
    the values read in between and whether or not it throws. *)

Section Respects.
Variable R : Handler → list Effect → Handler → Prop.
Hypothesis R_refl : ∀ h, R h [] h.
Hypothesis R_trans : ∀ h1 es1 h2 es2 h3,
  R h1 es1 h2 → R h2 es2 h3 → R h1 (es1 ++ es2) h3.

Lemma respects_ret {A} (a : A) : respects R (mret a).
Proof using R_refl. intros h. apply R_refl. Qed.

Lemma respects_skip : respects R skip.
Proof using R_refl. apply respects_ret. Qed.

Lemma respects_get : respects R get.
Proof using R_refl. intros h. apply R_refl. Qed.

Lemma respects_throw {A} e : respects R (@throw A e).
Proof using R_refl. intros h. apply R_refl. Qed.

Lemma respects_bind {A B} (m : M A) (f : A → M B) :
  respects R m → (∀ a, respects R (f a)) → respects R (m ≫= f).
Proof using R_trans.
  intros Hm Hf h. unfold mbind, M_bind. specialize (Hm h).
  destruct (m h) as [[[a|e] h1] es1]; [|exact Hm].
  specialize (Hf a h1). destruct (f a h1) as [[c h2] es2].
  eapply R_trans; eauto.
Qed.

Lemma respects_for_each {A} (l : list A) (body : A → M unit) :
  (∀ x, respects R (body x)) → respects R (for_each l body).
Proof using R_refl R_trans.
  intros Hb. induction l as [|x l IH]; simpl.
  - apply respects_skip.
  - apply respects_bind; [apply Hb | intros _; apply IH].
Qed.

Lemma respects_apply_op (op : Op) :
  (∀ e h, R h [Uncaught e] h) →
  respects R (step op) →
  ∀ h, R h (apply_op op h).2 (apply_op op h).1.
Proof using R_trans.
  intros Hu Hs h. unfold apply_op. specialize (Hs h).
  destruct (step op h) as [[[a|e] h'] es]; simpl; [exact Hs|].
  eapply R_trans; [exact Hs | apply Hu].
Qed.

Lemma respects_run (ops : list Op) :
  (∀ op h, R h (apply_op op h).2 (apply_op op h).1) →
  ∀ h, R h (run ops h).2 (run ops h).1.
Proof using R_refl R_trans.
  intros Hop. induction ops as [|op ops IH]; intros h; simpl.
  - apply R_refl.
  - specialize (Hop op h). destruct (apply_op op h) as [h1 es1].
    specialize (IH h1). destruct (run ops h1) as [h2 es2]. simpl in *.
    eapply R_trans; eauto.
Qed.
End Respects.

Ltac respects_go Hrefl Htrans fin :=
  repeat (intros; cbv beta iota zeta;
    lazymatch goal with
    | |- respects _ (mbind _ _) => apply (respects_bind _ Htrans)
    | |- respects _ (mret _) => apply (respects_ret _ Hrefl)
    | |- respects _ skip => apply (respects_skip _ Hrefl)
    | |- respects _ get => apply (respects_get _ Hrefl)
    | |- respects _ (throw _) => apply (respects_throw _ Hrefl)
    | |- respects _ (for_each _ _) => apply (respects_for_each _ Hrefl Htrans)
    | |- respects _ (if ?b then _ else _) => destruct b
    | |- respects _ (match ?x with _ => _ end) => destruct x
    | |- respects _ _ => solve [fin]
    end).

(** ** The onWorkerExit option is called at most once *)

Create HintDb exit_once.

Lemma spends_exit_refl h : spends_exit h [] h.
Proof. unfold spends_exit. rewrite count_nil. lia. Qed.

Lemma spends_exit_trans h1 es1 h2 es2 h3 :
  spends_exit h1 es1 h2 → spends_exit h2 es2 h3 → spends_exit h1 (es1 ++ es2) h3.
Proof. unfold spends_exit. rewrite count_app. lia. Qed.

Lemma exit_emit e : is_CallOnWorkerExit e = false → respects spends_exit (emit e).
Proof.
  intros He h. unfold emit, spends_exit. rewrite count_cons, He, count_nil. lia.
Qed.

Lemma exit_modify f :
  (∀ h, _onWorkerExit (f h) = _onWorkerExit h) → respects spends_exit (modify f).
Proof.
  intros Hf h. unfold modify, spends_exit, exit_budget. rewrite Hf, count_nil. lia.
Qed.

#[local] Hint Resolve exit_emit exit_modify : exit_once.
#[local] Hint Extern 1 (_ = _) => reflexivity : exit_once.

Ltac exit_go :=
  respects_go spends_exit_refl spends_exit_trans ltac:(auto with exit_once).

Lemma exit_onWorkerExit : respects spends_exit onWorkerExit.
Proof.
  intros h. unfold onWorkerExit, mbind, M_bind, get, modify, emit, skip, mret, M_ret,
    spends_exit, exit_budget.
  destruct (_onWorkerExit h); simpl; rewrite ?count_cons, ?count_nil; simpl; lia.
Qed.
#[local] Hint Resolve exit_onWorkerExit : exit_once.

Lemma exit_the_worker p : respects spends_exit (the_worker p).
Proof. unfold the_worker. exit_go. Qed.
#[local] Hint Resolve exit_the_worker : exit_once.

Lemma exit_set_worker_ready b : respects spends_exit (set_worker_ready b).
Proof. unfold set_worker_ready. exit_go. Qed.

Lemma exit_set_worker_killed : respects spends_exit set_worker_killed.
Proof. unfold set_worker_killed. exit_go. Qed.

Lemma exit_worker_send m : respects spends_exit (worker_send m).
Proof. unfold worker_send. exit_go. Qed.
#[local] Hint Resolve exit_set_worker_ready exit_set_worker_killed exit_worker_send : exit_once.

Lemma exit_onWorkerReady : respects spends_exit onWorkerReady.
Proof. unfold onWorkerReady. exit_go. Qed.

Lemma exit_clearReadyTimeout : respects spends_exit clearReadyTimeout.
Proof. unfold clearReadyTimeout. exit_go. Qed.
#[local] Hint Resolve exit_onWorkerReady exit_clearReadyTimeout : exit_once.

Lemma exit_setReadyTimeout d : respects spends_exit (setReadyTimeout d).
Proof. unfold setReadyTimeout. exit_go. Qed.

Lemma exit_resetStats : respects spends_exit resetStats.
Proof. unfold resetStats. exit_go. Qed.

Lemma exit_onError e : respects spends_exit (onError e).
Proof. unfold onError. exit_go. Qed.

Lemma exit_dispatchQueuedRequests : respects spends_exit dispatchQueuedRequests.
Proof. unfold dispatchQueuedRequests. exit_go. Qed.
#[local] Hint Resolve exit_setReadyTimeout exit_resetStats exit_onError
  exit_dispatchQueuedRequests : exit_once.

Lemma exit_onExit c s : respects spends_exit (onExit c s).
Proof. unfold onExit. exit_go. Qed.

Lemma exit_callTerminationHandler cb err :
  respects spends_exit (callTerminationHandler cb err).
Proof. unfold callTerminationHandler. exit_go. Qed.
#[local] Hint Resolve exit_onExit exit_callTerminationHandler : exit_once.

Lemma exit_cleanup err : respects spends_exit (cleanup err).
Proof. unfold cleanup. exit_go. Qed.
#[local] Hint Resolve exit_cleanup : exit_once.

Lemma exit_terminate force cb : respects spends_exit (terminate force cb).
Proof. unfold terminate. exit_go. Qed.
#[local] Hint Resolve exit_terminate : exit_once.

Lemma exit_onceExit : respects spends_exit onceExit.
Proof. unfold onceExit. exit_go. Qed.
#[local] Hint Resolve exit_onceExit : exit_once.

Lemma exit_run_onceExit n : respects spends_exit (run_onceExit n).
Proof. induction n as [|n IH]; simpl; exit_go. Qed.

Lemma exit_cleanExitTimeout : respects spends_exit cleanExitTimeout.
Proof. unfold cleanExitTimeout. exit_go. Qed.

Lemma exit_terminateAndNotify force t d :
  respects spends_exit (terminateAndNotify force t d).
Proof. unfold terminateAndNotify. exit_go. Qed.
#[local] Hint Resolve exit_run_onceExit exit_cleanExitTimeout
  exit_terminateAndNotify : exit_once.

Lemma exit_exec now m p r o : respects spends_exit (exec now m p r o).
Proof. unfold exec. exit_go. Qed.

Lemma exit_onCancelled id d : respects spends_exit (onCancelled id d).
Proof. unfold onCancelled. exit_go. Qed.

Lemma exit_maxExec_check : respects spends_exit maxExec_check.
Proof. unfold maxExec_check. exit_go. Qed.
#[local] Hint Resolve exit_exec exit_onCancelled exit_maxExec_check : exit_once.

Lemma exit_onMessage now m : respects spends_exit (onMessage now m).
Proof. unfold onMessage. exit_go. Qed.

Lemma exit_exitEvent c s : respects spends_exit (exitEvent c s).
Proof. unfold exitEvent. exit_go. Qed.
#[local] Hint Resolve exit_onMessage exit_exitEvent : exit_once.

Lemma exit_step op : respects spends_exit (step op).
Proof. destruct op; simpl; unfold readyTimeout; exit_go. Qed.

Lemma exit_apply_op op h : spends_exit h (apply_op op h).2 (apply_op op h).1.
Proof.
  apply (respects_apply_op _ spends_exit_trans); [|apply exit_step].
  intros e h'. unfold spends_exit. rewrite count_cons, count_nil. simpl. lia.
Qed.

Lemma exit_run ops h : spends_exit h (run ops h).2 (run ops h).1.
Proof.
  apply (respects_run _ spends_exit_refl spends_exit_trans). apply exit_apply_op.
Qed.

(** ** The "ready" signal *)

Lemma count_map_Send p (q : list Outgoing) :
  (∀ m, p (Send m) = false) → count p (map Send q) = 0.
Proof.
  intros Hp. induction q as [|m q IH]; simpl; [done|].
  by rewrite count_cons, Hp, IH.
Qed.

Lemma ready_message (h : Handler) (now : Z) :
  terminated h = false → worker h = true →
  ∃ h' es,
    onMessage now (MString "ready") h = (Normal tt, h', es)
    ∧ sent es = requestQueue h
    ∧ requestQueue h' = []
    ∧ count is_CallOnWorkerReady es = (if _onWorkerReady h then 1 else 0)
    ∧ terminated h' = false ∧ worker h' = true
    ∧ _onWorkerReady h' = _onWorkerReady h.
Proof.
  intros Ht Hw.
  unfold onMessage, mbind, M_bind, get. rewrite Ht. simpl.
  unfold clearReadyTimeout, set_worker_ready, the_worker, onWorkerReady,
    dispatchQueuedRequests, mbind, M_bind, get, modify, emit, skip, mret, M_ret.
  destruct (readyTimeoutTimer h) as [t|]; simpl; rewrite Hw; simpl;
    destruct (_onWorkerReady h) eqn:Hcb; simpl; rewrite ?Hcb; simpl;
    rewrite for_each_worker_send by (simpl; exact Hw);
    eexists _, _; (split; [reflexivity|]); simpl;
    rewrite ?count_cons, ?count_map_Send by done; simpl;
    unfold sent; simpl; fold (sent (map Send (requestQueue h)));
    rewrite sent_map_Send; repeat split; done.
Qed.

(** ** Requests submitted before the worker is ready *)

Lemma exec_queues (h : Handler) (c : Call) :
  terminated h = false → worker h = true → ready (transport h) = false →
  ∃ h',
    apply_op (op_of_call c) h = (h', [])
    ∧ requestQueue h' =
        requestQueue h ++ [ORequest (mkRequest (S (lastId h)) (call_method c) (call_params c))]
    ∧ lastId h' = S (lastId h)
    ∧ terminated h' = false ∧ worker h' = true ∧ ready (transport h') = false.
Proof.
  intros Ht Hw Hr.
  unfold apply_op, op_of_call, step, exec, the_worker,
    mbind, M_bind, get, modify, emit, skip, mret, M_ret.
  simpl. rewrite Ht. simpl. rewrite Hw. simpl. rewrite Hr. simpl.
  eexists. split; [reflexivity|]. simpl. done.
Qed.

Lemma run_exec_queues (calls : list Call) (h : Handler) :
  terminated h = false → worker h = true → ready (transport h) = false →
  ∃ h',
    run (map op_of_call calls) h = (h', [])
    ∧ requestQueue h' = requestQueue h ++ requests_from (lastId h) calls
    ∧ terminated h' = false ∧ worker h' = true.
Proof.
  revert h. induction calls as [|c calls IH]; intros h Ht Hw Hr; simpl.
  - exists h. by rewrite app_nil_r.
  - destruct (exec_queues h c Ht Hw Hr) as (h1 & -> & Hq & Hid & Ht1 & Hw1 & Hr1).
    destruct (IH h1 Ht1 Hw1 Hr1) as (h2 & -> & Hq2 & Ht2 & Hw2).
    exists h2. split; [reflexivity|]. split; [|done].
    rewrite Hq2, Hq, Hid, <- app_assoc. reflexivity.
Qed.

(** C8. Requests submitted with exec while the worker is not ready are
    queued, nothing is sent; when the "ready" signal is processed they go
    to the transport in submission order (behind what the queue held
    before), and the queue is empty afterwards. *)
Theorem queued_requests_sent_in_order (h : Handler) (calls : list Call) (now : Z) :
  terminated h = false → worker h = true → ready (transport h) = false →
  let '(h1, es1) := run (map op_of_call calls) h in
  let '(h2, es2) := apply_op (OpMessage now (MString "ready")) h1 in
  es1 = []
  ∧ requestQueue h1 = requestQueue h ++ requests_from (lastId h) calls
  ∧ sent es2 = requestQueue h ++ requests_from (lastId h) calls
  ∧ requestQueue h2 = [].
Proof.
  intros Ht Hw Hr.
  destruct (run_exec_queues calls h Ht Hw Hr) as (h1 & -> & Hq & Ht1 & Hw1).
  destruct (ready_message h1 now Ht1 Hw1) as (h2 & es2 & Hm & Hs & Hq2 & _).
  unfold apply_op, step. rewrite Hm, Hs, Hq. done.
Qed.

(** ** Transport failures: "error" and "exit" *)

Lemma elem_of_for_in (p : gmap nat Task) (id : nat) (task : Task) :
  (id, task) ∈ for_in p ↔ p !! id = Some task.
Proof.
  unfold for_in. rewrite merge_sort_Permutation. apply elem_of_map_to_list.
Qed.

Lemma length_for_in (p : gmap nat Task) : length (for_in p) = size p.
Proof.
  unfold for_in. rewrite merge_sort_Permutation. by rewrite length_map_to_list.
Qed.

Lemma count_map_Reject {A} (f : A → Resolver) (error : JsError) (l : list A) :
  count is_Reject (map (λ x, Reject (f x) error) l) = length l.
Proof.
  induction l as [|x l IH]; simpl; [done|]. rewrite count_cons, IH. done.
Qed.

Lemma onError_spec (h : Handler) (error : JsError) :
  onError error h =
    (Normal tt,
     set__onWorkerExit false (set_processing ∅ (set_terminated true h)),
     failure_effects h error).
Proof.
  unfold onError, failure_effects, onWorkerExit, mbind, M_bind, get, modify.
  simpl. rewrite for_each_emit. simpl.
  destruct (_onWorkerExit h); simpl; by rewrite ?app_nil_r.
Qed.

Lemma cleanup_None_spec (h : Handler) :
  ∃ es,
    cleanup None h =
      (Normal tt, set_terminating false (set_worker false (set_terminated true h)), es)
    ∧ count is_Reject es = 0 ∧ count is_CallOnWorkerExit es = 0.
Proof.
  unfold cleanup, callTerminationHandler, mbind, M_bind, get, modify, emit, skip,
    mret, M_ret. simpl.
  destruct (worker h && has_removeAllListeners (kind (transport h)));
    destruct (terminationHandler h) as [[f|d]|]; simpl;
    eexists; (split; [reflexivity|]); done.
Qed.

Lemma onceExit_spec (h : Handler) :
  ∃ h' es,
    onceExit h = (Normal tt, h', es)
    ∧ processing h' = processing h ∧ terminated h' = true
    ∧ concurrency h' = concurrency h
    ∧ count is_Reject es = 0 ∧ count is_CallOnWorkerExit es = 0.
Proof.
  unfold onceExit, set_worker_killed, the_worker, mbind, M_bind, get, modify, emit,
    skip, mret, M_ret. simpl.
  destruct (worker h) eqn:Hw; simpl; rewrite ?Hw; simpl.
  - destruct (cleanup_None_spec (set_transport (set_killed true (transport h)) h))
      as (es & -> & Hr & Hx).
    eexists _, _. split; [reflexivity|]. rewrite !count_cons. simpl. done.
  - destruct (cleanup_None_spec h) as (es & -> & Hr & Hx).
    eexists _, _. split; [reflexivity|]. rewrite !count_cons. simpl. done.
Qed.

Lemma run_onceExit_spec (n : nat) (h : Handler) :
  ∃ h' es,
    run_onceExit n h = (Normal tt, h', es)
    ∧ processing h' = processing h
    ∧ (terminated h = true → terminated h' = true)
    ∧ concurrency h' = concurrency h
    ∧ count is_Reject es = 0 ∧ count is_CallOnWorkerExit es = 0.
Proof.
  revert h. induction n as [|n IH]; intros h; simpl.
  - exists h, []. done.
  - unfold mbind, M_bind.
    destruct (onceExit_spec h) as (h1 & es1 & -> & Hp1 & Ht1 & Hc1 & Hr1 & Hx1).
    destruct (IH h1) as (h2 & es2 & -> & Hp2 & Ht2 & Hc2 & Hr2 & Hx2).
    eexists _, _. split; [reflexivity|]. rewrite !count_app.
    repeat split; [congruence | auto | congruence | lia | lia].
Qed.

Lemma append_assoc (a b c : string) : (a +:+ b) +:+ c = a +:+ (b +:+ c).
Proof.
  induction a as [|x a IH]; [done|].
  change (String x ((a +:+ b) +:+ c) = String x (a +:+ (b +:+ c))).
  by rewrite IH.
Qed.

Lemma includes_head (part post : string) : includes (part +:+ post) part.
Proof. by exists "", post. Qed.

Lemma includes_tail (a s part : string) : includes s part → includes (a +:+ s) part.
Proof.
  intros (pre & post & ->). exists (a +:+ pre), post. by rewrite append_assoc.
Qed.

Lemma exit_message_includes (script : string) (w : Worker) (exitCode signalCode : Value) :
  let message := exit_message script w exitCode signalCode in
  includes message (to_string exitCode)
  ∧ includes message (to_string signalCode)
  ∧ includes message script
  ∧ includes message (attr_to_string (spawnargs w))
  ∧ includes message (attr_to_string (spawnfile w))
  ∧ includes message (attr_to_string (stdout w))
  ∧ includes message (attr_to_string (stderr w)).
Proof.
  unfold exit_message. cbv zeta.
  repeat split; repeat first [apply includes_head | apply includes_tail].
Qed.

(** ** Until it is terminated, a handler holds its onWorkerExit callback *)

Create HintDb held.

Lemma keeps_refl h : keeps_exit_callback h [] h.
Proof. by intros Ht. Qed.

Lemma keeps_trans h1 es1 h2 es2 h3 :
  keeps_exit_callback h1 es1 h2 → keeps_exit_callback h2 es2 h3 →
  keeps_exit_callback h1 (es1 ++ es2) h3.
Proof.
  intros H12 H23 Ht. destruct (H23 Ht) as [Ht2 Hc2].
  destruct (H12 Ht2) as [Ht1 Hc1]. split; congruence.
Qed.

Lemma keeps_emit e : respects keeps_exit_callback (emit e).
Proof. intros h. apply keeps_refl. Qed.

Lemma keeps_modify f :
  (∀ h, terminated (f h) = terminated h) →
  (∀ h, _onWorkerExit (f h) = _onWorkerExit h) →
  respects keeps_exit_callback (modify f).
Proof. intros Ht Hc h Hf. simpl in *. rewrite Ht in Hf. by rewrite Hc. Qed.

Lemma keeps_set_terminated : respects keeps_exit_callback (modify (set_terminated true)).
Proof. intros h Hf. simpl in Hf. done. Qed.

#[local] Hint Resolve keeps_emit keeps_modify keeps_set_terminated : held.
#[local] Hint Extern 1 (_ = _) => reflexivity : held.

Ltac keeps_go := respects_go keeps_refl keeps_trans ltac:(auto with held).

Lemma keeps_onError e : respects keeps_exit_callback (onError e).
Proof. intros h. rewrite onError_spec. intros Hf. simpl in Hf. done. Qed.

Lemma keeps_maxExec_check : respects keeps_exit_callback maxExec_check.
Proof.
  intros h. unfold maxExec_check, mbind, M_bind, get.
  destruct (listener_this (kind (transport h))); simpl; apply keeps_refl.
Qed.
#[local] Hint Resolve keeps_onError keeps_maxExec_check : held.

Lemma keeps_the_worker p : respects keeps_exit_callback (the_worker p).
Proof. unfold the_worker. keeps_go. Qed.
#[local] Hint Resolve keeps_the_worker : held.

Lemma keeps_set_worker_ready b : respects keeps_exit_callback (set_worker_ready b).
Proof. unfold set_worker_ready. keeps_go. Qed.

Lemma keeps_set_worker_killed : respects keeps_exit_callback set_worker_killed.
Proof. unfold set_worker_killed. keeps_go. Qed.

Lemma keeps_worker_send m : respects keeps_exit_callback (worker_send m).
Proof. unfold worker_send. keeps_go. Qed.
#[local] Hint Resolve keeps_set_worker_ready keeps_set_worker_killed
  keeps_worker_send : held.

Lemma keeps_onWorkerReady : respects keeps_exit_callback onWorkerReady.
Proof. unfold onWorkerReady. keeps_go. Qed.

Lemma keeps_clearReadyTimeout : respects keeps_exit_callback clearReadyTimeout.
Proof. unfold clearReadyTimeout. keeps_go. Qed.
#[local] Hint Resolve keeps_onWorkerReady keeps_clearReadyTimeout : held.

Lemma keeps_setReadyTimeout d : respects keeps_exit_callback (setReadyTimeout d).
Proof. unfold setReadyTimeout. keeps_go. Qed.

Lemma keeps_resetStats : respects keeps_exit_callback resetStats.
Proof. unfold resetStats. keeps_go. Qed.

Lemma keeps_dispatchQueuedRequests : respects keeps_exit_callback dispatchQueuedRequests.
Proof. unfold dispatchQueuedRequests. keeps_go. Qed.
#[local] Hint Resolve keeps_setReadyTimeout keeps_resetStats
  keeps_dispatchQueuedRequests : held.

Lemma keeps_onExit c s : respects keeps_exit_callback (onExit c s).
Proof. unfold onExit. keeps_go. Qed.

Lemma keeps_callTerminationHandler cb err :
  respects keeps_exit_callback (callTerminationHandler cb err).
Proof. unfold callTerminationHandler. keeps_go. Qed.
#[local] Hint Resolve keeps_onExit keeps_callTerminationHandler : held.

Lemma keeps_cleanup err : respects keeps_exit_callback (cleanup err).
Proof. unfold cleanup. keeps_go. Qed.
#[local] Hint Resolve keeps_cleanup : held.

Lemma keeps_terminate force cb : respects keeps_exit_callback (terminate force cb).
Proof. unfold terminate. keeps_go. Qed.
#[local] Hint Resolve keeps_terminate : held.

Lemma keeps_onceExit : respects keeps_exit_callback onceExit.
Proof. unfold onceExit. keeps_go. Qed.
#[local] Hint Resolve keeps_onceExit : held.

Lemma keeps_run_onceExit n : respects keeps_exit_callback (run_onceExit n).
Proof. induction n as [|n IH]; simpl; keeps_go. Qed.

Lemma keeps_cleanExitTimeout : respects keeps_exit_callback cleanExitTimeout.
Proof. unfold cleanExitTimeout. keeps_go. Qed.

Lemma keeps_terminateAndNotify force t d :
  respects keeps_exit_callback (terminateAndNotify force t d).
Proof. unfold terminateAndNotify. keeps_go. Qed.
#[local] Hint Resolve keeps_run_onceExit keeps_cleanExitTimeout
  keeps_terminateAndNotify : held.

Lemma keeps_exec now m p r o : respects keeps_exit_callback (exec now m p r o).
Proof. unfold exec. keeps_go. Qed.

Lemma keeps_onCancelled id d : respects keeps_exit_callback (onCancelled id d).
Proof. unfold onCancelled. keeps_go. Qed.
#[local] Hint Resolve keeps_exec keeps_onCancelled : held.

Lemma keeps_onMessage now m : respects keeps_exit_callback (onMessage now m).
Proof. unfold onMessage. keeps_go. Qed.

Lemma keeps_exitEvent c s : respects keeps_exit_callback (exitEvent c s).
Proof. unfold exitEvent. keeps_go. Qed.
#[local] Hint Resolve keeps_onMessage keeps_exitEvent : held.

Lemma keeps_step op : respects keeps_exit_callback (step op).
Proof. destruct op; simpl; unfold readyTimeout; keeps_go. Qed.

Lemma keeps_run ops h : keeps_exit_callback h (run ops h).2 (run ops h).1.
Proof.
  apply (respects_run _ keeps_refl keeps_trans). intros op h'.
  apply (respects_apply_op _ keeps_trans); [|apply keeps_step].
  intros e h''. by intros Hf.
Qed.

Lemma WorkerHandler_initial script options defaultWorker w :
  let h0 := (WorkerHandler script options defaultWorker w).1 in
  terminated h0 = false ∧ worker h0 = true
  ∧ _onWorkerExit h0 = Opt.onWorkerExit options
  ∧ _onWorkerReady h0 = Opt.onWorkerReady options
  ∧ count is_CallOnWorkerExit (WorkerHandler script options defaultWorker w).2 = 0
  ∧ count is_CallOnWorkerReady (WorkerHandler script options defaultWorker w).2 =
      (if Opt.onWorkerReady options && script_falsy script then 1 else 0).
Proof.
  unfold WorkerHandler, setReadyTimeout, clearReadyTimeout, set_worker_ready,
    the_worker, onWorkerReady, mbind, M_bind, get, modify, emit, skip, mret, M_ret.
  simpl.
  destruct (script_falsy script); simpl;
    destruct (Opt.onWorkerReady options); simpl;
    destruct (duration_falsy _); simpl; done.
Qed.

Lemma exit_callback_held script options defaultWorker w ops :
  let h := (lifetime script options defaultWorker w ops).1 in
  terminated h = false → _onWorkerExit h = Opt.onWorkerExit options.
Proof.
  unfold lifetime.
  pose proof (WorkerHandler_initial script options defaultWorker w) as Hi.
  destruct (WorkerHandler script options defaultWorker w) as [h0 es0].
  pose proof (keeps_run ops h0) as Hk.
  destruct (run ops h0) as [h es]. simpl in *.
  intros Ht. destruct (Hk Ht) as [_ ->]. tauto.
Qed.

Lemma exitEvent_spec (h : Handler) (exitCode signalCode : Value) :
  ∃ h' rest,
    exitEvent exitCode signalCode h =
      (Normal tt, h',
       failure_effects h
         (new_Error (exit_message (script h) (transport h) exitCode signalCode))
       ++ rest)
    ∧ count is_Reject rest = 0 ∧ count is_CallOnWorkerExit rest = 0
    ∧ terminated h' = true ∧ processing h' = ∅
    ∧ concurrency h' = concurrency h.
Proof.
  unfold exitEvent, onExit, mbind, M_bind, get, modify.
  rewrite onError_spec. simpl.
  match goal with
  | |- context [run_onceExit ?n ?h1] =>
      destruct (run_onceExit_spec n h1) as (h2 & es2 & -> & Hp & Ht & Hc & Hr & Hx)
  end.
  simpl in *. exists h2, es2. rewrite ?app_nil_r.
  repeat split; auto.
Qed.

(** C7. On a transport "error" or "exit" event the handler sets
    terminated, rejects every task of the in-flight table with one and
    the same error (for "exit": an error whose message includes the exit
    code, the signal code, the script and the transport's spawnargs,
    spawnfile, stdout and stderr), empties the table and fires
    onWorkerExit; a handler that is not yet terminated still holds the
    onWorkerExit option it was given, so the option is called. *)
Theorem transport_failure_rejects_in_flight :
  (∀ (h : Handler) (error : JsError) (exitCode signalCode : Value),
     let message := exit_message (script h) (transport h) exitCode signalCode in
     (∃ h', onError error h = (Normal tt, h', failure_effects h error)
            ∧ terminated h' = true ∧ processing h' = ∅)
     ∧ (∃ h' rest,
          exitEvent exitCode signalCode h =
            (Normal tt, h', failure_effects h (new_Error message) ++ rest)
          ∧ count is_Reject rest = 0 ∧ count is_CallOnWorkerExit rest = 0
          ∧ terminated h' = true ∧ processing h' = ∅)
     ∧ own (new_Error message) !! "message" = Some (VStr message)
     ∧ includes message (to_string exitCode)
     ∧ includes message (to_string signalCode)
     ∧ includes message (script h)
     ∧ includes message (attr_to_string (spawnargs (transport h)))
     ∧ includes message (attr_to_string (spawnfile (transport h)))
     ∧ includes message (attr_to_string (stdout (transport h)))
     ∧ includes message (attr_to_string (stderr (transport h)))
     ∧ (∀ id task, processing h !! id = Some task →
          Reject (resolver task) error ∈ failure_effects h error)
     ∧ count is_Reject (failure_effects h error) = size (processing h)
     ∧ (_onWorkerExit h = true → CallOnWorkerExit ∈ failure_effects h error))
  ∧ (∀ script options defaultWorker w ops error,
       let h := (lifetime script options defaultWorker w ops).1 in
       terminated h = false → Opt.onWorkerExit options = true →
       CallOnWorkerExit ∈ failure_effects h error).
Proof.
  split.
  - intros h error exitCode signalCode message.
    split; [|split].
    { eexists. split; [apply onError_spec|]. done. }
    { destruct (exitEvent_spec h exitCode signalCode)
        as (h' & rest & He & Hr & Hx & Ht & Hp & _).
      exists h', rest. done. }
    split; [apply lookup_singleton_eq|].
    pose proof (exit_message_includes (script h) (transport h) exitCode signalCode)
      as (H1 & H2 & H3 & H4 & H5 & H6 & H7).
    do 7 (split; [assumption|]).
    split; [|split].
    + intros id task Hl. unfold failure_effects. apply elem_of_app. left.
      apply list_elem_of_fmap. exists (id, task). split; [done|].
      by apply elem_of_for_in.
    + unfold failure_effects. rewrite count_app, count_map_Reject, length_for_in.
      destruct (_onWorkerExit h); rewrite ?count_cons, ?count_nil; simpl; lia.
    + intros Hc. unfold failure_effects. rewrite Hc. apply elem_of_app. right.
      by left.
  - intros script options defaultWorker w ops error h Ht Ho.
    pose proof (exit_callback_held script options defaultWorker w ops Ht) as Hh.
    fold h in Hh. unfold failure_effects. rewrite Hh, Ho.
    apply elem_of_app. right. by left.
Qed.

(** ** Running a computation step by step *)

Lemma post_eq {A} (m : M A) h Q c h' es : m h = (c, h', es) → Q c h' es → post m h Q.
Proof. unfold post. by intros ->. Qed.

Lemma post_run {A} (m : M A) h Q : post m h Q → Q (m h).1.1 (m h).1.2 (m h).2.
Proof. unfold post. by destruct (m h) as [[c h'] es]. Qed.

Lemma post_ret {A} (a : A) h Q : Q (Normal a) h [] → post (mret a) h Q.
Proof. done. Qed.

Lemma post_skip h Q : Q (Normal tt) h [] → post skip h Q.
Proof. done. Qed.

Lemma post_get h Q : Q (Normal h) h [] → post get h Q.
Proof. done. Qed.

Lemma post_modify f h Q : Q (Normal tt) (f h) [] → post (modify f) h Q.
Proof. done. Qed.

Lemma post_emit e h Q : Q (Normal tt) h [e] → post (emit e) h Q.
Proof. done. Qed.

Lemma post_throw {A} e h Q : Q (Thrown e) h [] → post (@throw A e) h Q.
Proof. done. Qed.

Lemma post_bind {A B} (m : M A) (f : A → M B) h Q :
  post m h (λ c h1 es1,
    match c with
    | Normal a => post (f a) h1 (λ c' h2 es2, Q c' h2 (es1 ++ es2))
    | Thrown e => Q (Thrown e) h1 es1
    end) →
  post (m ≫= f) h Q.
Proof.
  unfold post, mbind, M_bind. destruct (m h) as [[[a|e] h1] es1]; [|done].
  by destruct (f a h1) as [[c h2] es2].
Qed.

Lemma post_conseq {A} (m : M A) h (Q Q' : Completion A → Handler → list Effect → Prop) :
  post m h Q → (∀ c h' es, Q c h' es → Q' c h' es) → post m h Q'.
Proof. unfold post. destruct (m h) as [[c h'] es]. auto. Qed.

Lemma post_for_each_emit {A} (f : A → Effect) l h Q :
  Q (Normal tt) h (map f l) → post (for_each l (λ x, emit (f x))) h Q.
Proof. intros HQ. eapply post_eq; [apply for_each_emit|done]. Qed.

(** Reading a field of an updated handler. *)
Ltac fields :=
  unfold busy;
  cbn [script transport worker concurrency maxExec markNotReadyAfterExec
       readyTimeoutDuration initReadyTimeoutDuration stats _onWorkerExit
       _onWorkerReady readyTimeoutTimer requestQueue processing terminating
       terminated terminationHandler lastId exitListeners
       set_transport set_worker set_stats set__onWorkerExit set_readyTimeoutTimer
       set_requestQueue set_processing set_terminating set_terminated
       set_terminationHandler set_lastId set_exitListeners
       kind ready killed spawnargs spawnfile stdout stderr set_ready set_killed
       requestCount responseCount totalTime minTime maxTime lastTime
       fst snd].

Ltac fields_all :=
  unfold busy in *;
  cbn [script transport worker concurrency maxExec markNotReadyAfterExec
       readyTimeoutDuration initReadyTimeoutDuration stats _onWorkerExit
       _onWorkerReady readyTimeoutTimer requestQueue processing terminating
       terminated terminationHandler lastId exitListeners
       set_transport set_worker set_stats set__onWorkerExit set_readyTimeoutTimer
       set_requestQueue set_processing set_terminating set_terminated
       set_terminationHandler set_lastId set_exitListeners
       kind ready killed spawnargs spawnfile stdout stderr set_ready set_killed
       requestCount responseCount totalTime minTime maxTime lastTime
       fst snd] in *.

(** A branch on [b]: by what is known of [b], else by cases. *)
Ltac case_on b :=
  first
    [ match goal with H : b = _ |- _ => rewrite H end
    | destruct b eqn:? ].

Ltac mstep :=
  lazymatch goal with
  | |- post (mbind _ _) _ _ => apply post_bind
  | |- post (mret _) _ _ => apply post_ret
  | |- post skip _ _ => apply post_skip
  | |- post get _ _ => apply post_get
  | |- post (modify _) _ _ => apply post_modify
  | |- post (emit _) _ _ => apply post_emit
  | |- post (throw _) _ _ => apply post_throw
  | |- post (for_each _ (λ x, emit _)) _ _ => apply post_for_each_emit
  | |- post (if negb ?b then _ else _) _ _ => case_on b; cbn [negb]
  | |- post (if ?b then _ else _) _ _ => case_on b
  | |- post (match ?x with _ => _ end) _ _ => case_on x
  end; cbv beta iota zeta; fields.

Ltac mrun := fields; repeat mstep.

(** ** How often the callbacks of the options run *)

(** Steps that leave the onWorkerReady option alone. *)

Create HintDb quiet.

Lemma quiet_refl h : no_ready_call h [] h.
Proof. unfold no_ready_call. rewrite count_nil. auto. Qed.

Lemma quiet_trans h1 es1 h2 es2 h3 :
  no_ready_call h1 es1 h2 → no_ready_call h2 es2 h3 →
  no_ready_call h1 (es1 ++ es2) h3.
Proof.
  intros (Hc1 & Hr1 & Hk1) (Hc2 & Hr2 & Hk2). unfold no_ready_call.
  rewrite count_app, Hc1, Hc2. split; [done|]. split; [congruence|].
  intros Ht. destruct (Hk2 Ht) as [Ht2 Hw2]. destruct (Hk1 Ht2) as [Ht1 Hw1].
  split; congruence.
Qed.

Lemma quiet_emit e : is_CallOnWorkerReady e = false → respects no_ready_call (emit e).
Proof.
  intros He h. unfold emit, no_ready_call. rewrite count_cons, He, count_nil. auto.
Qed.

Lemma quiet_modify f :
  (∀ h, _onWorkerReady (f h) = _onWorkerReady h) →
  (∀ h, terminated (f h) = terminated h) →
  (∀ h, worker (f h) = worker h) →
  respects no_ready_call (modify f).
Proof.
  intros Hr Ht Hw h. unfold modify, no_ready_call. rewrite count_nil, Hr, Ht, Hw. auto.
Qed.

Lemma quiet_set_terminated : respects no_ready_call (modify (set_terminated true)).
Proof. intros h. unfold modify, no_ready_call. rewrite count_nil. simpl. done. Qed.

#[local] Hint Resolve quiet_emit quiet_modify quiet_set_terminated : quiet.
#[local] Hint Extern 1 (_ = _) => reflexivity : quiet.

Ltac quiet_go := respects_go quiet_refl quiet_trans ltac:(auto with quiet).

Lemma quiet_the_worker p : respects no_ready_call (the_worker p).
Proof. unfold the_worker. quiet_go. Qed.
#[local] Hint Resolve quiet_the_worker : quiet.

Lemma quiet_set_worker_ready b : respects no_ready_call (set_worker_ready b).
Proof. unfold set_worker_ready. quiet_go. Qed.

Lemma quiet_set_worker_killed : respects no_ready_call set_worker_killed.
Proof. unfold set_worker_killed. quiet_go. Qed.

Lemma quiet_worker_send m : respects no_ready_call (worker_send m).
Proof. unfold worker_send. quiet_go. Qed.
#[local] Hint Resolve quiet_set_worker_ready quiet_set_worker_killed
  quiet_worker_send : quiet.

Lemma quiet_onWorkerExit : respects no_ready_call onWorkerExit.
Proof. unfold onWorkerExit. quiet_go. Qed.

Lemma quiet_clearReadyTimeout : respects no_ready_call clearReadyTimeout.
Proof. unfold clearReadyTimeout. quiet_go. Qed.
#[local] Hint Resolve quiet_onWorkerExit quiet_clearReadyTimeout : quiet.

Lemma quiet_setReadyTimeout d : respects no_ready_call (setReadyTimeout d).
Proof. unfold setReadyTimeout. quiet_go. Qed.

Lemma quiet_resetStats : respects no_ready_call resetStats.
Proof. unfold resetStats. quiet_go. Qed.

Lemma quiet_onError e : respects no_ready_call (onError e).
Proof. unfold onError. quiet_go. Qed.

Lemma quiet_maxExec_check : respects no_ready_call maxExec_check.
Proof. unfold maxExec_check. quiet_go. Qed.
#[local] Hint Resolve quiet_setReadyTimeout quiet_resetStats quiet_onError
  quiet_maxExec_check : quiet.

Lemma quiet_onExit c s : respects no_ready_call (onExit c s).
Proof. unfold onExit. quiet_go. Qed.

Lemma quiet_callTerminationHandler cb err :
  respects no_ready_call (callTerminationHandler cb err).
Proof. unfold callTerminationHandler. quiet_go. Qed.
#[local] Hint Resolve quiet_onExit quiet_callTerminationHandler : quiet.

Lemma quiet_cleanup err : respects no_ready_call (cleanup err).
Proof.
  intros h. change (post (cleanup err) h (λ _ h' es, no_ready_call h es h')).
  unfold cleanup, callTerminationHandler. mrun.
  all: unfold no_ready_call; fields; repeat split; try reflexivity; discriminate.
Qed.
#[local] Hint Resolve quiet_cleanup : quiet.

Lemma quiet_terminate force cb : respects no_ready_call (terminate force cb).
Proof. unfold terminate. quiet_go. Qed.
#[local] Hint Resolve quiet_terminate : quiet.

Lemma quiet_onceExit : respects no_ready_call onceExit.
Proof. unfold onceExit. quiet_go. Qed.
#[local] Hint Resolve quiet_onceExit : quiet.

Lemma quiet_run_onceExit n : respects no_ready_call (run_onceExit n).
Proof. induction n as [|n IH]; simpl; quiet_go. Qed.

Lemma quiet_cleanExitTimeout : respects no_ready_call cleanExitTimeout.
Proof. unfold cleanExitTimeout. quiet_go. Qed.

Lemma quiet_terminateAndNotify force t d :
  respects no_ready_call (terminateAndNotify force t d).
Proof. unfold terminateAndNotify. quiet_go. Qed.
#[local] Hint Resolve quiet_run_onceExit quiet_cleanExitTimeout
  quiet_terminateAndNotify : quiet.

Lemma quiet_exec now m p r o : respects no_ready_call (exec now m p r o).
Proof. unfold exec. quiet_go. Qed.

Lemma quiet_onCancelled id d : respects no_ready_call (onCancelled id d).
Proof. unfold onCancelled. quiet_go. Qed.

Lemma quiet_exitEvent c s : respects no_ready_call (exitEvent c s).
Proof. unfold exitEvent. quiet_go. Qed.
#[local] Hint Resolve quiet_exec quiet_onCancelled quiet_exitEvent : quiet.

Lemma quiet_response now r : respects no_ready_call (onMessage now (MObject r)).
Proof. unfold onMessage. quiet_go. Qed.

Lemma quiet_dropped now m h :
  terminated h = true → onMessage now m h = (Normal tt, h, []).
Proof. intros Ht. unfold onMessage, mbind, M_bind, get. by rewrite Ht. Qed.

Lemma quiet_other_string now s h :
  String.eqb s "ready" = false → onMessage now (MString s) h = (Normal tt, h, []).
Proof.
  intros Hs. unfold onMessage, mbind, M_bind, get. rewrite Hs.
  by destruct (terminated h).
Qed.

Lemma quiet_step op h :
  is_ready_signal op && negb (terminated h) = false →
  match step op h with (_, h', es) => no_ready_call h es h' end.
Proof.
  intros Hop.
  destruct op as [now method params resolver options | now [s|r] | e | c sg | | |
                  | force cb | force t d | id d]; simpl in Hop; cbn [step].
  3: { apply quiet_response. }
  2: { destruct (String.eqb s "ready") eqn:Hs; simpl in Hop.
       - apply negb_false_iff in Hop. rewrite quiet_dropped by done. apply quiet_refl.
       - rewrite quiet_other_string by done. apply quiet_refl. }
  all: lazymatch goal with
       | |- match ?m ?x with _ => _ end =>
           let H := fresh in
           assert (H : respects no_ready_call m) by (unfold readyTimeout; quiet_go);
           exact (H x)
       end.
Qed.

Lemma quiet_apply_op op h :
  is_ready_signal op && negb (terminated h) = false →
  no_ready_call h (apply_op op h).2 (apply_op op h).1.
Proof.
  intros Hop. pose proof (quiet_step op h Hop) as H. unfold apply_op.
  destruct (step op h) as [[[a|e] h'] es]; simpl; [done|].
  destruct H as (Hc & Hr & Hk). unfold no_ready_call.
  rewrite count_app, Hc, count_cons, count_nil. simpl. auto.
Qed.

Lemma ready_calls_run ops h :
  (terminated h = false → worker h = true) →
  count is_CallOnWorkerReady (run ops h).2
  = if _onWorkerReady h then signals_processed ops h else 0.
Proof.
  revert h. induction ops as [|op ops IH]; intros h Hw; simpl.
  - rewrite count_nil. by destruct (_onWorkerReady h).
  - destruct (is_ready_signal op && negb (terminated h)) eqn:Hop.
    + apply andb_true_iff in Hop as [Hs Ht]. apply negb_true_iff in Ht.
      destruct op as [| now [s|r] | | | | | | | |]; try discriminate Hs.
      simpl in Hs. apply String.eqb_eq in Hs. subst s.
      destruct (ready_message h now Ht (Hw Ht))
        as (h1 & es1 & Hm & _ & _ & Hc & Ht1 & Hw1 & Hcb).
      unfold apply_op, step. rewrite Hm. simpl.
      specialize (IH h1 (λ _, Hw1)).
      destruct (run ops h1) as [h2 es2]. simpl in *.
      rewrite count_app, Hc, IH, Hcb. by destruct (_onWorkerReady h).
    + pose proof (quiet_apply_op op h Hop) as (Hc & Hr & Hk).
      destruct (apply_op op h) as [h1 es1]. simpl in *.
      assert (terminated h1 = false → worker h1 = true) as Hw1.
      { intros Ht1. destruct (Hk Ht1) as [Ht Hww]. rewrite Hww. auto. }
      specialize (IH h1 Hw1).
      destruct (run ops h1) as [h2 es2]. simpl in *.
      rewrite count_app, Hc, IH, Hr. reflexivity.
Qed.

Lemma signals_all_processed (nows : list Z) (h : Handler) :
  terminated h = false → worker h = true →
  signals_processed (map ready_signal nows) h = length nows.
Proof.
  revert h. induction nows as [|now nows IH]; intros h Ht Hw; [done|].
  destruct (ready_message h now Ht Hw) as (h1 & es1 & Hm & _ & _ & _ & Ht1 & Hw1 & _).
  cbn [map signals_processed length].
  change (apply_op (ready_signal now) h)
    with (match onMessage now (MString "ready") h with
          | (Normal _, h', es) => (h', es)
          | (Thrown e, h', es) => (h', es ++ [Uncaught e])
          end).
  rewrite Hm, Ht. cbn [fst]. rewrite IH by done. reflexivity.
Qed.

(** C6, as the code has it.  Over a handler's whole lifetime the
    onWorkerExit option is called at most once, whatever happens to the
    handler.  The onWorkerReady option is not single-shot: whatever the
    operations of the lifetime are, it is called once for every "ready"
    signal that the handler processes, that is, that arrives while the
    handler is not terminated, and once by the constructor when no script
    was given; in a lifetime of "ready" signals alone every signal is
    processed. *)
Theorem onWorkerExit_once_onWorkerReady_per_signal
    (script : option string) (options : Opt.t) (defaultWorker : string) (w : Worker) :
  (∀ ops : list Op,
     count is_CallOnWorkerExit (lifetime script options defaultWorker w ops).2 ≤ 1)
  ∧ (∀ ops : list Op,
       count is_CallOnWorkerReady (lifetime script options defaultWorker w ops).2 =
       if Opt.onWorkerReady options
       then signals_processed ops (WorkerHandler script options defaultWorker w).1
            + (if script_falsy script then 1 else 0)
       else 0)
  ∧ (∀ nows : list Z,
       signals_processed (map ready_signal nows)
         (WorkerHandler script options defaultWorker w).1 = length nows).
Proof.
  pose proof (WorkerHandler_initial script options defaultWorker w)
    as (Ht & Hw & Hx & Hr & Hcx & Hcr).
  split; [|split].
  - intros ops. unfold lifetime.
    destruct (WorkerHandler script options defaultWorker w) as [h0 es0].
    pose proof (exit_run ops h0) as Hb.
    destruct (run ops h0) as [h es]. simpl in *.
    unfold spends_exit, exit_budget in Hb. rewrite count_app, Hcx.
    destruct (_onWorkerExit h0), (_onWorkerExit h); lia.
  - intros ops. unfold lifetime.
    destruct (WorkerHandler script options defaultWorker w) as [h0 es0].
    pose proof (ready_calls_run ops h0 (λ _, Hw)) as Hc.
    destruct (run ops h0) as [h es]. simpl in *.
    rewrite count_app, Hcr, Hc, Hr.
    destruct (Opt.onWorkerReady options), (script_falsy script); simpl; lia.
  - intros nows. by apply signals_all_processed.
Qed.

(** ** terminated ⇒ the in-flight table is empty *)

Lemma not_busy_empty (p : gmap nat Task) : (1 <=? size p) = false → p = ∅.
Proof.
  intros Hb. apply Nat.leb_gt in Hb. apply map_size_empty_iff. lia.
Qed.

Ltac unfold_terminate :=
  unfold terminate, cleanup, callTerminationHandler, clearReadyTimeout,
    set_worker_killed, worker_send, the_worker.

Ltac inv_done :=
  unfold keeps, terminated_empty in *; fields_all;
  repeat match goal with
         | H : _ ∨ _ |- _ => destruct H
         | H : _ ∧ _ |- _ => destruct H
         | H : concurrency _ = 1 |- _ => rewrite H in *
         end;
  try (split; [|assumption || reflexivity]);
  try solve [ done | intros; auto using not_busy_empty | intros; congruence
            | intros; rewrite delete_empty; done ].

Lemma terminate_keeps force cb h :
  concurrency h = 1 → (force = true ∨ terminated_empty h) →
  post (terminate force cb) h (λ _ h' _, keeps h').
Proof.
  intros Hc Hi. unfold_terminate. mrun. all: inv_done.
Qed.

Lemma for_each_worker_send_state (q : list Outgoing) (h : Handler) :
  (for_each q worker_send h).1.2 = h.
Proof.
  induction q as [|m q IH]; [done|]. simpl.
  unfold mbind, M_bind, worker_send at 1, the_worker, mbind, M_bind, get, emit.
  destruct (worker h); simpl; [|done].
  destruct (for_each q worker_send h) as [[c h'] es]. simpl in *. done.
Qed.

Lemma post_for_each_worker_send q h Q :
  (∀ c es, Q c h es) → post (for_each q worker_send) h Q.
Proof.
  intros HQ. unfold post. pose proof (for_each_worker_send_state q h) as Hs.
  destruct (for_each q worker_send h) as [[c h'] es]. simpl in Hs. subst. apply HQ.
Qed.

Ltac keeps_step :=
  lazymatch goal with
  | |- post (terminate _ _) _ _ =>
      eapply post_conseq;
      [ apply terminate_keeps;
        [ fields; assumption
        | unfold terminated_empty; fields; auto; right; intros; congruence ]
      | unfold keeps; intros [?|?] ? ? [? ?]; cbv beta iota zeta ]
  | |- post (for_each _ worker_send) _ _ =>
      apply post_for_each_worker_send; intros; cbv beta iota zeta
  end.

Lemma onMessage_keeps now m h :
  concurrency h = 1 → terminated_empty h →
  post (onMessage now m) h (λ _ h' _, keeps h').
Proof.
  intros Hc Hi.
  unfold onMessage, maxExec_check, set_worker_ready, setReadyTimeout,
    clearReadyTimeout, onWorkerReady, dispatchQueuedRequests, onWorkerExit, the_worker.
  repeat first [mstep | keeps_step].
  all: inv_done.
Qed.

Lemma apply_op_state op h : (apply_op op h).1 = (step op h).1.2.
Proof. unfold apply_op. by destruct (step op h) as [[[a|e] h'] es]. Qed.

Lemma step_keeps op h :
  keeps h → is_exec op = false → post (step op) h (λ _ h' _, keeps h').
Proof.
  intros [Hi Hc] Hop. destruct op; try discriminate Hop; simpl.
  - by apply onMessage_keeps.
  - eapply post_eq; [apply onError_spec|]. inv_done.
  - destruct (exitEvent_spec h exitCode signalCode)
      as (h' & rest & He & _ & _ & Ht & Hp & Hc').
    eapply post_eq; [exact He|]. unfold keeps, terminated_empty.
    split; [done | congruence].
  - unfold readyTimeout. apply terminate_keeps; auto.
  - unfold cleanExitTimeout, set_worker_killed, the_worker. mrun; inv_done.
  - unfold resetStats. mrun; inv_done.
  - apply terminate_keeps; auto.
  - unfold terminateAndNotify. repeat first [mstep | keeps_step]; inv_done.
  - unfold onCancelled, terminateAndNotify. repeat first [mstep | keeps_step]; inv_done.
Qed.

Lemma exec_on_terminated (h : Handler) now method params resolver options :
  terminated h = true →
  let id := S (lastId h) in
  let r := default (OwnDeferred id) resolver in
  ∃ h',
    exec now method params resolver options h =
      (Normal r, h', [Reject r (new_Error "Worker is terminated")])
    ∧ processing h' = <[id := mkTask id r options now]> (processing h)
    ∧ terminated h' = true.
Proof.
  intros Ht id r. unfold exec, mbind, M_bind, get, modify, emit, mret, M_ret.
  simpl. rewrite Ht. simpl. eexists. split; [reflexivity|]. simpl. done.
Qed.

Lemma exec_keeps now method params resolver options h :
  keeps h → terminated h = false →
  post (exec now method params resolver options) h (λ _ h' _, keeps h').
Proof.
  intros [Hi Hc] Ht. unfold exec, worker_send, the_worker. mrun.
  all: inv_done.
Qed.

Lemma step_keeps_live op h :
  keeps h → (is_exec op = true → terminated h = false) →
  post (step op) h (λ _ h' _, keeps h').
Proof.
  intros Hk Hop. destruct (is_exec op) eqn:He; [|by apply step_keeps].
  destruct op; try discriminate He. cbn [step].
  apply post_bind. eapply post_conseq; [apply exec_keeps; auto|].
  intros [a|e] h' es Hk'; cbv beta iota; [by apply post_skip | done].
Qed.

Lemma run_keeps_live ops h :
  keeps h → execs_on_live ops h → keeps (run ops h).1.
Proof.
  revert h. induction ops as [|op ops IH]; intros h Hk Hops; simpl; [done|].
  destruct Hops as [Hop Hops].
  pose proof (post_run _ _ _ (step_keeps_live op h Hk Hop)) as Hk1.
  rewrite <- apply_op_state in Hk1.
  destruct (apply_op op h) as [h1 es1]. specialize (IH h1 Hk1 Hops).
  by destruct (run ops h1) as [h2 es2].
Qed.

(** C3, as the code has it.  On a handler with the default concurrency
    of 1, "terminated implies the in-flight table is empty" is preserved
    by every operation but one, an exec on a handler that is terminated:
    by every other operation and by exec on a handler that is not
    terminated, one at a time and in any sequence.  exec on a terminated
    handler does not preserve it: it rejects the returned future with
    "Worker is terminated" and leaves the record of the new task in the
    in-flight table. *)
Theorem terminated_empty_preserved_except_exec (h : Handler) :
  concurrency h = 1 → terminated_empty h →
  (∀ op, (is_exec op = true → terminated h = false) →
         terminated_empty (apply_op op h).1)
  ∧ (∀ ops, execs_on_live ops h → terminated_empty (run ops h).1)
  ∧ (∀ now method params resolver options,
       terminated h = true →
       let id := S (lastId h) in
       let r := default (OwnDeferred id) resolver in
       ∃ h',
         exec now method params resolver options h =
           (Normal r, h', [Reject r (new_Error "Worker is terminated")])
         ∧ processing h' = <[id := mkTask id r options now]> (processing h)
         ∧ processing h' ≠ ∅
         ∧ terminated h' = true).
Proof.
  intros Hc Hi. assert (keeps h) as Hk by done.
  split; [|split].
  - intros op Hop. rewrite apply_op_state.
    exact (proj1 (post_run _ _ _ (step_keeps_live op h Hk Hop))).
  - intros ops Hops. by apply run_keeps_live.
  - intros now method params resolver options Ht id r.
    destruct (exec_on_terminated h now method params resolver options Ht)
      as (h' & He & Hp & Ht').
    exists h'. repeat split; try done.
    fold id r in Hp. rewrite Hp. apply insert_non_empty.
Qed.

(** ** The readiness timer *)



(** ** maxExec *)

(** On a child process or a worker thread [this] is the worker object,
    which has no [maxExec]: the check does nothing. *)
Lemma maxExec_check_inert (h : Handler) :
  listener_this (kind (transport h)) = ThisTransport →
  maxExec_check h = (Normal tt, h, []).
Proof.
  intros Hthis. unfold maxExec_check, mbind, M_bind, get. rewrite Hthis. reflexivity.
Qed.

(** In a web worker [this] is undefined and the check throws. *)
Lemma maxExec_check_throws (h : Handler) :
  listener_this (kind (transport h)) = ThisUndefined →
  ∃ e, maxExec_check h = (Thrown e, h, []).
Proof.
  intros Hthis. unfold maxExec_check, mbind, M_bind, get. rewrite Hthis.
  eexists. reflexivity.
Qed.

(** Whatever maxExec and the counters are, a response never makes the
    handler start terminating and never fires onWorkerExit. *)
Lemma response_never_retires (h : Handler) (now : Z) (m : Message) :
  terminating h = false →
  post (onMessage now m) h (λ _ h' es,
    terminating h' = false ∧ count is_CallOnWorkerExit es = 0).
Proof.
  intros Hn.
  unfold onMessage, maxExec_check, set_worker_ready, setReadyTimeout,
    clearReadyTimeout, onWorkerReady, dispatchQueuedRequests, the_worker.
  repeat first
    [ mstep
    | lazymatch goal with
      | |- post (for_each ?q worker_send) ?h0 _ =>
          let Hw := fresh "Hw" in
          destruct (worker h0) eqn:Hw;
          [ eapply post_eq; [apply for_each_worker_send; exact Hw|]
          | destruct q as [|? ?];
            [ eapply post_eq; [reflexivity|]
            | eapply post_eq;
              [ simpl; unfold mbind, M_bind, worker_send, the_worker, mbind, M_bind,
                  get; rewrite Hw; reflexivity |] ] ]
      end ].
  all: fields_all; cbn [app];
    try (split; [assumption || reflexivity|]);
    rewrite ?count_app, ?count_cons, ?count_nil, ?count_map_Send by done;
    try reflexivity; try discriminate.
Qed.

(** C1 at a failing input.  A handler made with [maxExec: 1] on a child
    process runs one task and processes its response: responseCount has
    reached maxExec, yet the handler is not terminating and onWorkerExit
    was not fired. *)
Theorem maxExec_reached_handler_not_retired :
  let '(h, es) :=
    lifetime None Fixture.maxExec_one "worker.js" Fixture.process_worker
      [Fixture.echo 0 42; OpMessage 5 (MObject (Fixture.echo_result 1 42))] in
  maxExec h = 1 ∧ responseCount (stats h) = 1
  ∧ terminating h = false ∧ terminated h = false
  ∧ count is_CallOnWorkerExit es = 0
  ∧ es = [SetInterval 300000; CallOnWorkerReady;
          Send (ORequest (mkRequest 1 "echo" (VNum 42)));
          Resolve (OwnDeferred 1) (VNum 42)].
Proof. vm_compute. repeat split. Qed.

(** ** terminate without force *)

(** C2 at a failing input.  A handler with [concurrency: 2] has one task
    in flight; terminate(false) kills the worker thread at once, marks
    the handler terminated and drops the worker, with the task still in
    the in-flight table. *)
Theorem graceful_terminate_kills_loaded_worker :
  let h := Fixture.half_loaded in
  let '(c, h', es) := terminate false None h in
  concurrency h = 2 ∧ size (processing h) = 1 ∧ busy h = false
  ∧ es = [Kill; RemoveAllListeners "message"]
  ∧ terminated h' = true ∧ terminating h' = false ∧ worker h' = false
  ∧ processing h' = processing h.
Proof. vm_compute. repeat split. Qed.

(** With as many tasks in flight as the concurrency allows, terminate
    without force only notes the request. *)
Lemma graceful_terminate_waits_when_busy (h : Handler) (cb : option TermCallback) :
  busy h = true →
  post (terminate false cb) h (λ c h' es,
    c = Normal tt ∧ terminating h' = true ∧ terminated h' = terminated h
    ∧ worker h' = worker h ∧ transport h' = transport h
    ∧ processing h' = processing h
    ∧ es = match readyTimeoutTimer h with
           | Some _ => [ClearTimeout ReadyTimeoutTimer]
           | None => []
           end).
Proof.
  intros Hb. unfold busy in Hb. unfold_terminate. mrun.
  all: fields_all; cbn [app]; try (rewrite Hb in *; discriminate).
  all: repeat split; reflexivity.
Qed.

(** ** terminateAndNotify *)

(** The timeout argument reaches the [timeout] property of the promise
    and nothing else: the handler and the effects are those of
    terminate with the notifying callback. *)
Lemma terminateAndNotify_timeout_inert force timeout d h :
  (terminateAndNotify force timeout d h).1.2 = (terminate force (Some (NotifyCallback d)) h).1.2
  ∧ (terminateAndNotify force timeout d h).2 = (terminate force (Some (NotifyCallback d)) h).2.
Proof.
  unfold terminateAndNotify, mbind, M_bind, mret, M_ret.
  destruct (terminate force (Some (NotifyCallback d)) h) as [[[a|e] h'] es]; simpl;
    by rewrite ?app_nil_r.
Qed.

(** C5 at a failing input.  terminateAndNotify(false, 100) on a handler
    with a task in flight stores 100 in the promise's [timeout] property,
    keeps the callback and sets terminating; it has no effect on the
    outside, so no timer is armed that could reject the promise. *)
Theorem terminateAndNotify_arms_no_timer :
  let '(c, h', es) := terminateAndNotify false (Some 100%N) 1 Fixture.one_in_flight in
  c = Normal (mkTerminationPromise 1 (Some 100%N))
  ∧ es = []
  ∧ terminating h' = true ∧ terminated h' = false
  ∧ terminationHandler h' = Some (NotifyCallback 1)
  ∧ readyTimeoutTimer h' = None.
Proof. vm_compute. repeat split. Qed.

(** ** The statements at concrete handlers *)

(** C3 fails for exec: a handler terminated while idle satisfies the
    invariant, and after one exec it is terminated with a task in its
    in-flight table. *)
Lemma exec_on_terminated_handler_keeps_task :
  terminated Fixture.terminated_idle = true
  ∧ terminated_empty Fixture.terminated_idle
  ∧ ¬ terminated_empty (apply_op (Fixture.echo 9 1) Fixture.terminated_idle).1.
Proof.
  split; [reflexivity|]. split.
  - intros _. reflexivity.
  - intros H. assert (Ht : terminated (apply_op (Fixture.echo 9 1) Fixture.terminated_idle).1 = true)
      by reflexivity.
    specialize (H Ht). apply (f_equal size) in H. vm_compute in H. discriminate H.
Qed.

Lemma terminated_empty_preserved_except_exec_witness :
  terminated_empty
    (run [Fixture.echo 1 42; OpTerminate false None;
          OpMessage 5 (MObject (Fixture.echo_result 1 42)); OpExit (VNum 0) VNull]
       Fixture.not_ready).1
  ∧ terminated
      (run [Fixture.echo 1 42; OpTerminate false None;
            OpMessage 5 (MObject (Fixture.echo_result 1 42)); OpExit (VNum 0) VNull]
         Fixture.not_ready).1 = true.
Proof.
  split; [|reflexivity].
  destruct (terminated_empty_preserved_except_exec Fixture.not_ready)
    as (_ & Hrun & _).
  - reflexivity.
  - intros Ht. discriminate Ht.
  - apply Hrun. simpl. repeat split; try reflexivity; intros H; discriminate H.
Defined.



(** C6 fails for onWorkerReady: two "ready" signals call the option
    twice. *)
Lemma onWorkerReady_called_for_each_signal :
  ¬ count is_CallOnWorkerReady
      (lifetime (Some "my-worker.js") Fixture.callbacks_only "worker.js"
         Fixture.process_worker [ready_signal 1; ready_signal 2]).2 ≤ 1.
Proof. vm_compute. lia. Qed.

Lemma transport_failure_rejects_in_flight_witness :
  Reject (OwnDeferred 1) (new_Error "boom")
    ∈ failure_effects Fixture.two_in_flight (new_Error "boom")
  ∧ Reject (OwnDeferred 2) (new_Error "boom")
    ∈ failure_effects Fixture.two_in_flight (new_Error "boom")
  ∧ CallOnWorkerExit ∈ failure_effects Fixture.two_in_flight (new_Error "boom").
Proof.
  destruct transport_failure_rejects_in_flight as [Hh _].
  destruct (Hh Fixture.two_in_flight (new_Error "boom") (VNum 1) VNull)
    as (_ & _ & _ & _ & _ & _ & _ & _ & _ & _ & Hr & _ & Hx).
  split; [|split].
  - apply (Hr 1 (mkTask 1 (OwnDeferred 1) None 0)). reflexivity.
  - apply (Hr 2 (mkTask 2 (OwnDeferred 2) None 1)). reflexivity.
  - apply Hx. reflexivity.
Defined.

Lemma queued_requests_sent_in_order_witness :
  let '(h1, es1) :=
    run (map op_of_call [Fixture.echo_call 0 1; Fixture.echo_call 1 2])
      Fixture.not_ready in
  let '(h2, es2) := apply_op (OpMessage 5 (MString "ready")) h1 in
  es1 = []
  ∧ requestQueue h1 =
      requestQueue Fixture.not_ready
      ++ requests_from (lastId Fixture.not_ready)
           [Fixture.echo_call 0 1; Fixture.echo_call 1 2]
  ∧ sent es2 =
      requestQueue Fixture.not_ready
      ++ requests_from (lastId Fixture.not_ready)
           [Fixture.echo_call 0 1; Fixture.echo_call 1 2]
  ∧ requestQueue h2 = [].
Proof.
  apply (queued_requests_sent_in_order Fixture.not_ready
           [Fixture.echo_call 0 1; Fixture.echo_call 1 2] 5); reflexivity.
Defined.

Lemma event_message_frame_witness :
  onMessage 3 (MObject (Fixture.event 1 "a")) Fixture.streaming =
    (Normal tt, Fixture.streaming, [CallOn 7 (VStr "a")]).
Proof.
  apply (event_message_frame Fixture.streaming 3 (Fixture.event 1 "a")
           Fixture.streaming_task); reflexivity.
Defined.

(** ** The model on the scenarios of the specification *)

(** S2: three events reach the sink in order, then the task resolves. *)
Example scenario_streamed_events :
  (run [OpMessage 1 (MObject (Fixture.event 1 "a"));
        OpMessage 2 (MObject (Fixture.event 1 "b"));
        OpMessage 3 (MObject (Fixture.event 1 "c"));
        OpMessage 4 (MObject (mkResponse 1 false VUndefined None (VStr "done")))]
     Fixture.streaming).2
  = [CallOn 7 (VStr "a"); CallOn 7 (VStr "b"); CallOn 7 (VStr "c");
     Resolve (OwnDeferred 1) (VStr "done")].
Proof. vm_compute. reflexivity. Qed.

(** S3: an error response rejects the task with the decoded error. *)
Example scenario_task_error :
  let d := DObject {[ "name" := VStr "RangeError"; "message" := VStr "oops" ]} in
  (apply_op (OpMessage 4 (MObject (mkResponse 1 false VUndefined (Some d) VUndefined)))
     Fixture.one_in_flight).2
  = [Reject (OwnDeferred 1) (objectToError d)]
  ∧ own (objectToError d) !! "name" = Some (VStr "RangeError")
  ∧ own (objectToError d) !! "message" = Some (VStr "oops").
Proof. vm_compute. repeat split. Qed.

(** S4: the worker exits with two tasks in flight. *)
Example scenario_unexpected_exit :
  let '(h, es) := apply_op (OpExit (VNum 1) VNull) Fixture.two_in_flight in
  count is_Reject es = 2 ∧ count is_CallOnWorkerExit es = 1
  ∧ terminated h = true ∧ size (processing h) = 0.
Proof. vm_compute. repeat split. Qed.

(** S5: terminate(false) with a task in flight waits for its response. *)
Example scenario_graceful_termination :
  let '(h1, es1) := apply_op (OpTerminate false (Some 3)) Fixture.one_in_flight in
  let '(h2, es2) := apply_op (OpMessage 9 (MObject (Fixture.echo_result 1 42))) h1 in
  terminating h1 = true ∧ es1 = []
  ∧ terminated h2 = false
  ∧ es2 = [SetTimeout CleanExitTimeout 1000; OnceExit;
           Send (OString TERMINATE_METHOD_ID); Resolve (OwnDeferred 1) (VNum 42)].
Proof. vm_compute. repeat split. Qed.

(** S6: terminate(true) rejects the three tasks in flight and empties the
    table before the shutdown starts. *)
Example scenario_forced_termination :
  let h :=
    (lifetime None Fixture.callbacks_only "worker.js" Fixture.process_worker
       [Fixture.echo 0 1; Fixture.echo 1 2; Fixture.echo 2 3]).1 in
  let '(h', es) := apply_op (OpTerminate true None) h in
  size (processing h) = 3 ∧ size (processing h') = 0
  ∧ es = [Reject (OwnDeferred 1) (new_Error "Worker terminated");
          Reject (OwnDeferred 2) (new_Error "Worker terminated");
          Reject (OwnDeferred 3) (new_Error "Worker terminated");
          SetTimeout CleanExitTimeout 1000; OnceExit;
          Send (OString TERMINATE_METHOD_ID)].
Proof. vm_compute. repeat split. Qed.

(** * Further properties of the handler *)

(** ** What terminate and the exit listeners leave alone *)

Lemma terminate_frame force cb h :
  post (terminate force cb) h (λ _ h' _,
    bookkeeping_kept h h'
    ∧ processing h' = (if force then ∅ else processing h)).
Proof.
  unfold bookkeeping_kept, same_config. unfold_terminate. mrun.
  all: fields_all; repeat split; try reflexivity; try (intros; assumption);
    try discriminate.
Qed.

Lemma run_onceExit_frame n h :
  post (run_onceExit n) h (λ _ h' _,
    bookkeeping_kept h h' ∧ processing h' = processing h).
Proof.
  revert h. induction n as [|n IH]; intros h; simpl.
  - apply post_skip. unfold bookkeeping_kept, same_config. repeat split; auto.
  - apply post_bind.
    unfold onceExit, cleanup, callTerminationHandler, set_worker_killed, the_worker.
    mrun.
    all: eapply post_conseq; [apply IH|]; cbv beta;
      unfold bookkeeping_kept, same_config; fields;
      intros ? ? ? H; repeat match goal with H : _ ∧ _ |- _ => destruct H end;
      repeat split; try congruence;
      match goal with
      | H : ?P → _ ∧ _, H' : ?P |- _ => destruct (H H'); discriminate
      end.
Qed.

(** Nested calls, by what they leave alone. *)
Ltac frame_step :=
  lazymatch goal with
  | |- post (terminate _ _) _ _ =>
      eapply post_conseq; [apply terminate_frame|];
      unfold bookkeeping_kept, same_config; cbv beta; fields;
      intros [?|?] ? ? ?; cbv beta iota zeta
  | |- post (run_onceExit _) _ _ =>
      eapply post_conseq; [apply run_onceExit_frame|];
      unfold bookkeeping_kept, same_config; cbv beta; fields;
      intros [?|?] ? ? ?; cbv beta iota zeta
  | |- post (for_each _ worker_send) _ _ =>
      apply post_for_each_worker_send; intros; cbv beta iota zeta
  | |- post (worker_send _) _ _ => unfold worker_send, the_worker
  end.

Ltac split_hyps :=
  repeat match goal with
         | H : _ ∧ _ |- _ => destruct H
         end.

Ltac unfold_ops :=
  unfold exec, onMessage, exitEvent, onExit, onError, readyTimeout, cleanExitTimeout,
    resetStats, onCancelled, terminateAndNotify, maxExec_check, set_worker_ready,
    setReadyTimeout, clearReadyTimeout, onWorkerReady, dispatchQueuedRequests,
    onWorkerExit, set_worker_killed, the_worker, record_response.

Ltac mrun_ops := repeat first [mstep | frame_step].

(** What is known after a nested call, put to use. *)
Ltac use_frames :=
  split_hyps; fields_all;
  repeat match goal with H : processing ?x = _ |- _ => rewrite H in * end;
  repeat match goal with H : stats ?x = _ |- _ => rewrite H in * end;
  repeat match goal with H : lastId ?x = _ |- _ => rewrite H in * end;
  fields_all.

Ltac use_premises :=
  repeat first
    [ progress split_hyps
    | match goal with
      | H : ?a = ?a → _ |- _ => specialize (H eq_refl)
      | H : ?P → _, H' : ?P |- _ => specialize (H H')
      end ].

(** ** Ids and counters over the life of a handler *)

Lemma size_delete_le (m : gmap nat Task) i : size (delete i m) ≤ size m.
Proof. rewrite map_size_delete. destruct (m !! i); simpl; lia. Qed.

Lemma size_delete_present (m : gmap nat Task) i t :
  m !! i = Some t → S (size (delete i m)) = size m.
Proof.
  intros Hl. rewrite map_size_delete, Hl. simpl.
  assert (size m ≠ 0) by (eapply map_size_ne_0_lookup_2; eauto). lia.
Qed.

Lemma size_insert_le (m : gmap nat Task) i t : size (<[i:=t]> m) ≤ S (size m).
Proof. rewrite map_size_insert. destruct (m !! i); simpl; lia. Qed.

Ltac table_facts :=
  repeat match goal with
  | |- context [size (delete ?i ?m)] =>
      lazymatch goal with
      | H : m !! i = Some ?t |- _ =>
          lazymatch goal with
          | _ : S (size (delete i m)) = size m |- _ => fail
          | _ => pose proof (size_delete_present m i t H)
          end
      | _ =>
          lazymatch goal with
          | _ : size (delete i m) ≤ size m |- _ => fail
          | _ => pose proof (size_delete_le m i)
          end
      end
  | |- context [size (<[?i:=?t]> ?m)] =>
      lazymatch goal with
      | _ : size (<[i:=t]> m) ≤ S (size m) |- _ => fail
      | _ => pose proof (size_insert_le m i t)
      end
  end.

Ltac ids_leaf Hid :=
  let i := fresh "i" in let task := fresh "task" in let Hl := fresh "Hl" in
  intros i task Hl;
  first
    [ apply lookup_insert_Some in Hl as [[<- <-]|[? Hl]];
      [ simpl; lia | apply Hid in Hl; lia ]
    | apply lookup_delete_Some in Hl as [? Hl]; apply Hid in Hl; lia
    | rewrite lookup_empty in Hl; discriminate
    | apply Hid in Hl; lia ].

Lemma step_lifetime_inv op h :
  lifetime_inv h → post (step op) h (λ _ h' _, lifetime_inv h').
Proof.
  intros (Hid & Hcnt & Hw). unfold lifetime_inv, ids_bounded, counters_consistent in *.
  destruct op; simpl; unfold_ops.
  all: try match goal with |- context [terminate ?f _] => is_var f; destruct f end.
  all: mrun_ops.
  all: use_frames.
  all: split; [ids_leaf Hid | split; [rewrite ?map_size_empty; table_facts; lia|]].
  all: intros Hf; try discriminate Hf; use_premises; try solve [auto | congruence].
Qed.

Lemma step_state_post op h (P : Handler → Prop) :
  post (step op) h (λ _ h' _, P h') → P (apply_op op h).1.
Proof. intros Hp. rewrite apply_op_state. exact (post_run _ _ _ Hp). Qed.

Lemma run_state_inv (P : Handler → Prop) :
  (∀ op h, P h → P (apply_op op h).1) →
  ∀ ops h, P h → P (run ops h).1.
Proof.
  intros Hstep ops. induction ops as [|op ops IH]; intros h Hp; simpl; [done|].
  specialize (Hstep op h Hp). destruct (apply_op op h) as [h1 es1].
  specialize (IH h1 Hstep). by destruct (run ops h1) as [h2 es2].
Qed.

Lemma WorkerHandler_lifetime_inv script options defaultWorker w :
  lifetime_inv (WorkerHandler script options defaultWorker w).1.
Proof.
  unfold WorkerHandler, setReadyTimeout, clearReadyTimeout, set_worker_ready,
    the_worker, onWorkerReady, mbind, M_bind, get, modify, emit, skip, mret, M_ret.
  simpl.
  destruct (script_falsy script); simpl;
    destruct (Opt.onWorkerReady options); simpl;
    destruct (duration_falsy _); simpl.
  all: unfold lifetime_inv, ids_bounded, counters_consistent; simpl.
  all: rewrite map_size_empty; repeat split; try lia; try done.
  all: intros i task Hl; rewrite lookup_empty in Hl; discriminate.
Qed.

Lemma lifetime_lifetime_inv script options defaultWorker w ops :
  lifetime_inv (lifetime script options defaultWorker w ops).1.
Proof.
  unfold lifetime.
  pose proof (WorkerHandler_lifetime_inv script options defaultWorker w) as H0.
  destruct (WorkerHandler script options defaultWorker w) as [h0 es0].
  pose proof (run_state_inv lifetime_inv
                (λ op h Hi, step_state_post op h _ (step_lifetime_inv op h Hi))
                ops h0 H0) as Hr.
  by destruct (run ops h0) as [h es].
Qed.

(** X2. Over the whole life of a handler the responses counted plus the
    tasks still in flight never exceed the requests counted; in
    particular responseCount ≤ requestCount, whatever messages the worker
    sends. *)
Theorem responses_never_exceed_requests
    (script : option string) (options : Opt.t) (defaultWorker : string) (w : Worker)
    (ops : list Op) :
  let h := (lifetime script options defaultWorker w ops).1 in
  responseCount (stats h) + size (processing h) ≤ requestCount (stats h)
  ∧ responseCount (stats h) ≤ requestCount (stats h).
Proof.
  intros h.
  pose proof (lifetime_lifetime_inv script options defaultWorker w ops)
    as (Hid & Hcnt & Hw).
  fold h in Hcnt. unfold counters_consistent in Hcnt. lia.
Qed.

(** ** What only ever grows *)

Lemma grows_refl h : grows h h.
Proof. unfold grows, same_config. repeat split; auto. Qed.

Lemma grows_trans h1 h2 h3 : grows h1 h2 → grows h2 h3 → grows h1 h3.
Proof.
  unfold grows, same_config. intros H12 H23. split_hyps.
  repeat split; try congruence; try lia; auto.
Qed.

Lemma step_grows op h : post (step op) h (λ _ h' _, grows h h').
Proof.
  unfold grows, same_config.
  destruct op; simpl; unfold_ops.
  all: mrun_ops.
  all: use_frames.
  all: repeat split; try reflexivity; try congruence; try lia.
  all: try (intros; assumption).
  all: intros Hf; use_premises; try discriminate; try congruence.
  all: match goal with
       | |- ?b = true => destruct b eqn:?; [reflexivity | use_premises; congruence]
       end.
Qed.

Lemma run_grows ops h : grows h (run ops h).1.
Proof.
  revert h. induction ops as [|op ops IH]; intros h; simpl; [apply grows_refl|].
  pose proof (step_state_post op h _ (step_grows op h)) as H1.
  destruct (apply_op op h) as [h1 es1]. specialize (IH h1).
  destruct (run ops h1) as [h2 es2]. simpl in *. eapply grows_trans; eauto.
Qed.

(** X1. Over the whole life of a handler, exec never reuses an id: the id
    it allocates is lastId + 1, it is larger than the id of every record
    in the in-flight table, and every exec that follows, whatever happens
    to the handler in between, allocates a larger one.  The table grows
    by exactly the record of the new task. *)
Theorem exec_allocates_fresh_id
    (script : option string) (options : Opt.t) (defaultWorker : string) (w : Worker)
    (ops : list Op) (now : Z) (method : string) (params : Value)
    (resolver : option Resolver) (task_options : option ExecOptions) :
  let h := (lifetime script options defaultWorker w ops).1 in
  let id := S (lastId h) in
  let r := default (OwnDeferred id) resolver in
  let h' := (exec now method params resolver task_options h).1.2 in
  lastId h' = id
  ∧ (∀ i task, processing h !! i = Some task → i < id)
  ∧ processing h' = <[id := mkTask id r task_options now]> (processing h)
  ∧ size (processing h') = S (size (processing h))
  ∧ (∀ (later : list Op) (now' : Z) (method' : string) (params' : Value)
       (resolver' : option Resolver) (task_options' : option ExecOptions),
       let h1 := (run later h').1 in
       let h1' := (exec now' method' params' resolver' task_options' h1).1.2 in
       lastId h1' = S (lastId h1) ∧ id < lastId h1').
Proof.
  intros h id r h'.
  pose proof (lifetime_lifetime_inv script options defaultWorker w ops)
    as (Hid & Hcnt & Hw).
  fold h in Hid, Hcnt, Hw.
  assert (Hfresh : processing h !! id = None).
  { destruct (processing h !! id) as [t|] eqn:Hl; [|done].
    apply Hid in Hl. unfold id in Hl. lia. }
  assert (Hexec : ∀ now method params resolver task_options g,
            lastId (exec now method params resolver task_options g).1.2 = S (lastId g)
            ∧ processing (exec now method params resolver task_options g).1.2
              = <[S (lastId g) :=
                    mkTask (S (lastId g)) (default (OwnDeferred (S (lastId g))) resolver)
                      task_options now]> (processing g)).
  { intros now0 method0 params0 resolver0 options0 g.
    apply (post_run (exec now0 method0 params0 resolver0 options0) g
             (λ _ g' _, lastId g' = S (lastId g)
                        ∧ processing g' = <[S (lastId g) := _]> (processing g))).
    unfold exec, worker_send, the_worker. mrun. all: done. }
  destruct (Hexec now method params resolver task_options h) as [Hl Hp].
  fold h' in Hl, Hp. fold id in Hl, Hp. fold r in Hp.
  split; [exact Hl|].
  split; [intros i task Hi; apply Hid in Hi; unfold id; lia|].
  split; [exact Hp|].
  split; [rewrite Hp; by apply map_size_insert_None|].
  intros later now' method' params' resolver' task_options' h1 h1'.
  destruct (Hexec now' method' params' resolver' task_options' h1) as [Hl1 _].
  fold h1' in Hl1. split; [exact Hl1|].
  pose proof (run_grows later h') as (_ & Hg & _). fold h1 in Hg. lia.
Qed.

(** X3. Retirement is permanent: once a handler is terminated, or has
    been given as many requests as its maxExec > 0 allows, no sequence of
    operations makes it available again (a terminated handler stays
    terminated, requestCount never decreases and maxExec never changes). *)
Theorem retirement_is_permanent (h : Handler) (ops : list Op) :
  terminated h = true ∨ (0 < maxExec h ∧ maxExec h ≤ requestCount (stats h)) →
  available (run ops h).1 = false
  ∧ (terminated h = true → terminated (run ops h).1 = true).
Proof.
  intros Hret. pose proof (run_grows ops h) as Hg.
  destruct (run ops h) as [h' es]. simpl in *.
  unfold grows, same_config in Hg. split_hyps. split; [|assumption].
  unfold available.
  destruct Hret as [Ht|[Hk Hreq]].
  - use_premises.
    match goal with H : terminated h' = true |- _ => rewrite H end.
    by rewrite andb_false_r.
  - replace ((maxExec h' =? 0) || (requestCount (stats h') <? maxExec h')) with false.
    { by rewrite andb_false_r. }
    symmetry. apply orb_false_iff. split.
    + apply Nat.eqb_neq. lia.
    + apply Nat.ltb_ge. lia.
Qed.

Lemma retirement_is_permanent_witness :
  available (run [ready_signal 9; OpResetStats] Sample.spent).1 = false.
Proof.
  apply (retirement_is_permanent Sample.spent [ready_signal 9; OpResetStats]).
  right. split; [apply Nat.lt_0_1 | apply Nat.le_refl].
Defined.

(** ** Responses *)

Lemma settlements_cons e es :
  settlements (e :: es) = if is_settlement e then e :: settlements es else settlements es.
Proof.
  unfold settlements. destruct (is_settlement e) eqn:He.
  - by rewrite filter_cons_True.
  - rewrite filter_cons_False; [done | congruence].
Qed.

Lemma settlements_nil : settlements [] = [].
Proof. reflexivity. Qed.

Ltac settle := rewrite ?settlements_cons, ?settlements_nil; cbn [is_settlement].

Ltac unfold_onMessage :=
  unfold onMessage, maxExec_check, set_worker_ready, setReadyTimeout,
    clearReadyTimeout, onWorkerExit, the_worker.

(** X4. On a child process or worker thread, a terminal response for a
    task of the in-flight table, processed by a handler that is neither
    terminated nor terminating, never throws and settles the task's
    promise exactly once (rejected with the decoded error when
    [response.error] is truthy, resolved with [response.result]
    otherwise); the task leaves the table and the statistics record the
    time spent. *)
Theorem response_settles_once (h : Handler) (now : Z) (r : Response) (task : Task) :
  terminated h = false → worker h = true → on_node h → terminating h = false →
  processing h !! resp_id r = Some task → isEvent r = false →
  post (onMessage now (MObject r)) h (λ c h' es,
    c = Normal tt
    ∧ settlements es = [settlement task r]
    ∧ processing h' = delete (resp_id r) (processing h)
    ∧ stats h' = record_response (now - started task) (stats h)
    ∧ terminated h' = false ∧ terminating h' = false ∧ lastId h' = lastId h).
Proof.
  intros Ht Hw Hn Hg Hl He. unfold on_node in Hn.
  unfold_onMessage. unfold settlement.
  mrun.
  all: fields_all; cbn [app]; settle.
  all: try discriminate.
  all: repeat split; try reflexivity; try assumption.
Qed.

Lemma response_settles_once_witness :
  settlements (onMessage 5 (MObject (Fixture.echo_result 1 42)) Fixture.one_in_flight).2
  = [Resolve (OwnDeferred 1) (VNum 42)].
Proof.
  pose proof (response_settles_once Fixture.one_in_flight 5 (Fixture.echo_result 1 42)
                (mkTask 1 (OwnDeferred 1) None 0)
                eq_refl eq_refl eq_refl eq_refl eq_refl eq_refl) as H.
  apply post_run in H. destruct H as (_ & H & _). exact H.
Defined.

(** X5. On a web worker every terminal response for a task of the
    in-flight table makes the message listener throw a TypeError (the
    read of [this.maxExec] with [this] undefined): the task has left the
    table and the response is counted, but the task's promise is neither
    resolved nor rejected. *)
Theorem response_on_web_worker_never_settles
    (h : Handler) (now : Z) (r : Response) (task : Task) :
  terminated h = false → worker h = true → kind (transport h) = BrowserWorker →
  processing h !! resp_id r = Some task → isEvent r = false →
  post (onMessage now (MObject r)) h (λ c h' es,
    (∃ e, c = Thrown e ∧ ctor e = "TypeError")
    ∧ settlements es = []
    ∧ processing h' = delete (resp_id r) (processing h)
    ∧ responseCount (stats h') = S (responseCount (stats h))
    ∧ terminated h' = false).
Proof.
  intros Ht Hw Hk Hl He.
  unfold_onMessage.
  mrun.
  all: fields_all; cbn [app]; settle.
  all: try (rewrite Hk in *; discriminate).
  all: repeat split; try reflexivity; try assumption; eauto.
Qed.

Lemma response_on_web_worker_never_settles_witness :
  settlements (onMessage 5 (MObject (Fixture.echo_result 1 42)) Sample.in_browser).2 = []
  ∧ processing (onMessage 5 (MObject (Fixture.echo_result 1 42)) Sample.in_browser).1.2
    = delete 1 (processing Sample.in_browser).
Proof.
  pose proof (response_on_web_worker_never_settles Sample.in_browser 5
                (Fixture.echo_result 1 42) (mkTask 1 (OwnDeferred 1) None 0)
                eq_refl eq_refl eq_refl eq_refl eq_refl) as H.
  apply post_run in H. destruct H as (_ & H1 & H2 & _). split; [exact H1 | exact H2].
Defined.

Lemma response_then_gone (h : Handler) (now : Z) (r : Response) :
  (terminated h = false → worker h = true) → isEvent r = false →
  post (onMessage now (MObject r)) h (λ _ h' _,
    terminated h' = true ∨ processing h' !! resp_id r = None).
Proof.
  intros Hw He.
  unfold_onMessage.
  mrun_ops.
  all: use_frames; use_premises; try congruence.
  all: try (right; apply lookup_delete_eq).
  all: try (right; assumption).
  all: try (left; assumption).
Qed.

Lemma message_dropped (h : Handler) (now : Z) (r : Response) :
  terminated h = true ∨ processing h !! resp_id r = None →
  onMessage now (MObject r) h = (Normal tt, h, []).
Proof.
  intros Hd. unfold onMessage, mbind, M_bind, get.
  destruct (terminated h); [reflexivity|].
  destruct Hd as [Hd|Hd]; [discriminate|]. by rewrite Hd.
Qed.

(** X6. A response that arrives a second time is ignored: after a
    terminal response has been processed (whatever it did), the same
    response changes nothing and has no effect, so no task is settled or
    counted twice.  The premise holds of every handler from its
    construction on: only a terminated handler has dropped its worker. *)
Theorem duplicate_response_ignored (h : Handler) (now now' : Z) (r : Response) :
  (terminated h = false → worker h = true) → isEvent r = false →
  let h1 := (onMessage now (MObject r) h).1.2 in
  onMessage now' (MObject r) h1 = (Normal tt, h1, []).
Proof.
  intros Hw He h1. apply message_dropped.
  exact (post_run _ _ _ (response_then_gone h now r Hw He)).
Qed.

Lemma duplicate_response_ignored_witness :
  let h1 := (onMessage 5 (MObject (Fixture.echo_result 1 42)) Fixture.one_in_flight).1.2 in
  onMessage 6 (MObject (Fixture.echo_result 1 42)) h1 = (Normal tt, h1, []).
Proof.
  apply (duplicate_response_ignored Fixture.one_in_flight 5 6 (Fixture.echo_result 1 42));
    reflexivity.
Defined.

(** ** Timing statistics *)

Lemma record_response_ordered (t : Z) (s : Stats) : stats_ordered (record_response t s).
Proof.
  unfold stats_ordered, record_response. simpl.
  destruct (minTime s) as [m|]; simpl;
    repeat match goal with |- context [(?a <? ?b)%Z] => destruct (Z.ltb_spec a b) end;
    simpl; lia.
Qed.

Lemma step_stats op h :
  post (step op) h (λ _ h' _,
    stats h' = stats h
    ∨ (∃ t, stats h' = record_response t (stats h))
    ∨ (minTime (stats h') = minTime (stats h) ∧ maxTime (stats h') = maxTime (stats h)
       ∧ lastTime (stats h') = lastTime (stats h))
    ∨ op = OpResetStats).
Proof.
  destruct op; simpl; unfold_ops.
  all: mrun_ops.
  all: use_frames.
  all: try (left; reflexivity).
  all: try (right; left; eexists; reflexivity).
  all: try (right; right; left; repeat split; reflexivity).
  all: try (right; right; right; reflexivity).
Qed.

(** X7. Within a statistics window minTime ≤ lastTime ≤ maxTime: a
    terminal response for a task in flight establishes it (lastTime is
    now - started, totalTime grows by it, responseCount by one), every
    operation other than the periodic reset keeps it, and the reset
    (minTime = Infinity, maxTime = 0) breaks it until the next response. *)
Theorem stats_window_ordered :
  (∀ h now r task,
     terminated h = false → processing h !! resp_id r = Some task → isEvent r = false →
     let s' := stats (apply_op (OpMessage now (MObject r)) h).1 in
     stats_ordered s'
     ∧ lastTime s' = (now - started task)%Z
     ∧ totalTime s' = (totalTime (stats h) + (now - started task))%Z
     ∧ responseCount s' = S (responseCount (stats h)))
  ∧ (∀ h op, op ≠ OpResetStats → stats_ordered (stats h) →
       stats_ordered (stats (apply_op op h).1))
  ∧ (∀ h, ¬ stats_ordered (stats (apply_op OpResetStats h).1)).
Proof.
  split; [|split].
  - intros h now r task Ht Hl He s'. unfold s'. apply step_state_post. simpl.
    unfold_onMessage.
    mrun_ops.
    all: use_frames.
    all: split; [apply record_response_ordered|]; repeat split; reflexivity.
  - intros h op Hop Hs. apply step_state_post.
    eapply post_conseq; [apply step_stats|]. cbv beta.
    intros c h' es [->|[[t ->]|[(Hmin & Hmax & Hlast)|?]]]; try done.
    + apply record_response_ordered.
    + unfold stats_ordered in *. by rewrite Hmin, Hmax, Hlast.
  - intros h. vm_compute. tauto.
Qed.

Lemma stats_window_ordered_witness :
  stats_ordered
    (stats (apply_op (Fixture.echo 6 1)
              (apply_op (OpMessage 5 (MObject (Fixture.echo_result 1 42)))
                 Fixture.one_in_flight).1).1).
Proof.
  destruct stats_window_ordered as (Hresp & Hkeep & _).
  apply (Hkeep _ (Fixture.echo 6 1)); [discriminate|].
  apply (Hresp Fixture.one_in_flight 5%Z (Fixture.echo_result 1 42)
           (mkTask 1 (OwnDeferred 1) None 0)); reflexivity.
Defined.

(** ** Termination *)

Lemma rejections_app es1 es2 : rejections (es1 ++ es2) = rejections es1 ++ rejections es2.
Proof. unfold rejections. apply omap_app. Qed.

Lemma rejections_nil : rejections [] = [].
Proof. reflexivity. Qed.

Lemma rejections_cons e es :
  rejections (e :: es) =
    match e with
    | Reject r err => (r, err) :: rejections es
    | _ => rejections es
    end.
Proof. by destruct e. Qed.

Lemma rejections_map (e : JsError) (l : list (nat * Task)) :
  rejections (map (λ entry : nat * Task, Reject (resolver entry.2) e) l)
  = map (λ entry, (resolver entry.2, e)) l.
Proof.
  induction l as [|x l IH]; [done|].
  change (rejections (Reject (resolver x.2) e
                      :: map (λ entry : nat * Task, Reject (resolver entry.2) e) l)
          = (resolver x.2, e) :: map (λ entry, (resolver entry.2, e)) l).
  rewrite rejections_cons. by rewrite IH.
Qed.

Ltac reject_norm :=
  cbn [app];
  repeat (progress
            (rewrite ?rejections_app, ?rejections_cons, ?rejections_nil, ?rejections_map;
             cbv iota));
  rewrite ?app_nil_r.

Lemma count_map_none {A} p (f : A → Effect) (l : list A) :
  (∀ x, p (f x) = false) → count p (map f l) = 0.
Proof.
  intros Hp. induction l as [|x l IH]; simpl; [done|].
  by rewrite count_cons, Hp, IH.
Qed.

Ltac count_norm :=
  cbn [app];
  repeat (progress
    (rewrite ?count_app, ?count_cons, ?count_nil, ?count_map_none by done;
     cbn [is_ResolveTermination is_RejectTermination is_Kill is_Reject
          is_CallOnWorkerExit is_CallOnWorkerReady];
     rewrite ?Nat.eqb_refl));
  cbn [Nat.add].

Lemma sent_cons e es :
  sent (e :: es) = match e with Send m => m :: sent es | _ => sent es end.
Proof. by destruct e. Qed.

Lemma sent_map_Reject (e : JsError) (l : list (nat * Task)) :
  sent (map (λ entry : nat * Task, Reject (resolver entry.2) e) l) = [].
Proof.
  induction l as [|x l IH]; [done|].
  change (sent (Reject (resolver x.2) e
                :: map (λ entry : nat * Task, Reject (resolver entry.2) e) l) = []).
  by rewrite sent_cons.
Qed.

Ltac sent_norm :=
  cbn [app];
  repeat (progress
            (rewrite ?sent_app, ?sent_cons, ?sent_map_Reject; cbv iota));
  change (sent []) with (@nil Outgoing);
  cbn [app].

Ltac elem_app :=
  first
    [ apply list_elem_of_here
    | apply list_elem_of_further; elem_app
    | apply elem_of_app; left; elem_app
    | apply elem_of_app; right; elem_app ].

Ltac leaf_conj :=
  repeat match goal with
         | |- _ ∧ _ => split
         | |- _ = _ => reflexivity || lia
         | |- _ ∈ _ => solve [elem_app]
         end.

(** What is known of [busy] on a path, against [1 ≤ concurrency]. *)
Ltac busy_facts :=
  repeat match goal with
         | H : (_ <=? size ∅) = true |- _ =>
             rewrite map_size_empty in H; apply Nat.leb_le in H
         | H : ?a = ?a → _ |- _ => specialize (H eq_refl)
         end.

(** X8. terminate(true, callback), on any handler: every task of the
    in-flight table is rejected exactly once, in the order of the ids, with
    the error "Worker terminated", no other task promise is rejected, and
    the table is empty afterwards.  With concurrency ≥ 1, on a worker
    thread or a web worker the handler is terminated and has dropped its
    worker when the call returns. *)
Theorem forced_terminate_rejects_in_flight (cb : option TermCallback) (h : Handler) :
  post (terminate true cb) h (λ c h' es,
    rejections es =
      map (λ entry, (resolver entry.2, new_Error "Worker terminated"))
        (for_in (processing h))
    ∧ processing h' = ∅
    ∧ (1 ≤ concurrency h → kind (transport h) ≠ ChildProcess →
       terminated h' = true ∧ worker h' = false)).
Proof.
  unfold_terminate. mrun.
  all: fields_all; reject_norm.
  all: split; [reflexivity|]; split; [reflexivity|].
  all: intros Hc Hk; try (split; reflexivity).
  all: busy_facts; try lia; try congruence.
  all: destruct (kind (transport h)); try done; discriminate.
Qed.

Lemma forced_terminate_rejects_in_flight_witness :
  terminated (terminate true None Fixture.half_loaded).1.2 = true
  ∧ rejections (terminate true None Fixture.half_loaded).2
    = [(OwnDeferred 1, new_Error "Worker terminated")].
Proof.
  pose proof (forced_terminate_rejects_in_flight None Fixture.half_loaded) as H.
  apply post_run in H. destruct H as (Hr & _ & Ht).
  split; [|exact Hr].
  apply Ht; [apply Nat.le_succ_diag_r | discriminate].
Defined.

(** X9. The cancellation handler of exec (a CancellationError or
    TimeoutError of task [i]) removes task [i] from the in-flight table
    before it force-terminates: the tasks rejected with "Worker
    terminated" are exactly the other tasks of the table, so the cancelled
    task, which is rejected already, is not rejected a second time. *)
Theorem cancelled_task_not_rejected_again (i d : nat) (h : Handler) :
  post (onCancelled i d) h (λ c h' es,
    rejections es =
      map (λ entry, (resolver entry.2, new_Error "Worker terminated"))
        (for_in (delete i (processing h)))
    ∧ (∀ task e, (resolver task, e) ∈ rejections es →
         ∃ j task', j ≠ i ∧ processing h !! j = Some task'
                    ∧ resolver task' = resolver task)
    ∧ processing h' = ∅).
Proof.
  unfold onCancelled, terminateAndNotify. unfold_terminate. mrun.
  all: fields_all; reject_norm.
  all: split; [reflexivity|]; split; [|reflexivity].
  all: intros task e Hin; apply list_elem_of_fmap in Hin as [[j task'] [Heq Hin]];
    apply elem_of_for_in in Hin; apply lookup_delete_Some in Hin as [Hne Hl];
    exists j, task'; simpl in Heq; inversion Heq; auto.
Qed.

(** X10. terminate on a worker that has [kill] and is already killed
    (and is free to shut down: not busy, or forced) kills nothing and
    sends nothing; it marks the handler terminated, drops the worker, and
    reports the error "worker already killed!": to the callback passed or
    stashed earlier if there is one, and otherwise by throwing it. *)
Theorem terminate_on_killed_worker (force : bool) (cb : option TermCallback) (h : Handler) :
  worker h = true → has_kill (kind (transport h)) = true → killed (transport h) = true →
  1 ≤ concurrency h → (force = false → busy h = false) →
  post (terminate force cb) h (λ c h' es,
    terminated h' = true ∧ worker h' = false ∧ terminating h' = false
    ∧ count is_Kill es = 0 ∧ sent es = []
    ∧ match effective_handler cb h with
      | Some (UserCallback f) =>
          c = Normal tt
          ∧ CallTerminationHandler f (Some (new_Error "worker already killed!")) ∈ es
      | Some (NotifyCallback d) =>
          c = Normal tt ∧ RejectTermination d (new_Error "worker already killed!") ∈ es
      | None => c = Thrown (new_Error "worker already killed!")
      end).
Proof.
  intros Hw Hk Hkd Hc Hb. unfold effective_handler. unfold_terminate. mrun.
  all: fields_all; busy_facts; try lia; try congruence.
  all: count_norm; sent_norm.
  all: repeat match goal with H : terminationHandler _ = _ |- _ => rewrite H end.
  all: leaf_conj.
Qed.

Lemma terminate_on_killed_worker_witness :
  (terminate false None Sample.killed_process).1.1
    = Thrown (new_Error "worker already killed!")
  ∧ terminated (terminate false None Sample.killed_process).1.2 = true.
Proof.
  pose proof (terminate_on_killed_worker false None Sample.killed_process
                eq_refl eq_refl eq_refl (Nat.le_refl 1) (λ _, eq_refl)) as H.
  apply post_run in H. destruct H as (Ht & _ & _ & _ & _ & Hc).
  split; [exact Hc | exact Ht].
Defined.

(** X11. terminateAndNotify on a worker thread or web worker that is not
    killed yet and is free to shut down: the worker is killed (or
    terminated) once, the handler is terminated with the worker dropped,
    and the returned promise is resolved, once and never rejected, before
    the call returns. *)
Theorem thread_shutdown_completes_at_once
    (force : bool) (timeout : option N) (d : nat) (h : Handler) :
  worker h = true → kind (transport h) ≠ ChildProcess → killed (transport h) = false →
  1 ≤ concurrency h → (force = false → busy h = false) →
  post (terminateAndNotify force timeout d) h (λ c h' es,
    (∃ p, c = Normal p ∧ deferred p = d)
    ∧ count (is_ResolveTermination d) es = 1
    ∧ count is_RejectTermination es = 0
    ∧ count is_Kill es = 1
    ∧ terminated h' = true ∧ worker h' = false ∧ killed (transport h') = true).
Proof.
  intros Hw Hk Hkd Hc Hb. unfold terminateAndNotify. unfold_terminate. mrun.
  all: fields_all; busy_facts; try lia; try congruence.
  all: try (destruct (kind (transport h)); done).
  all: count_norm.
  all: split; [eexists; split; reflexivity|].
  all: leaf_conj.
Qed.

Lemma thread_shutdown_completes_at_once_witness :
  count (is_ResolveTermination 7)
    (terminateAndNotify true None 7 Fixture.half_loaded).2 = 1
  ∧ terminated (terminateAndNotify true None 7 Fixture.half_loaded).1.2 = true.
Proof.
  pose proof (thread_shutdown_completes_at_once true None 7 Fixture.half_loaded
                eq_refl) as H.
  apply post_run in H.
  - destruct H as (_ & Hr & _ & _ & Ht & _). split; [exact Hr | exact Ht].
  - discriminate.
  - reflexivity.
  - apply Nat.le_succ_diag_r.
  - discriminate.
Defined.

Lemma run_onceExit_notifies (n d : nat) (h : Handler) :
  terminationHandler h = Some (NotifyCallback d) →
  post (run_onceExit n) h (λ c h' es,
    c = Normal tt
    ∧ count (is_ResolveTermination d) es = n
    ∧ count is_RejectTermination es = 0
    ∧ (terminated h = true → terminated h' = true)
    ∧ (worker h = false → worker h' = false)
    ∧ (0 < n → terminated h' = true ∧ worker h' = false)).
Proof.
  revert h. induction n as [|n IH]; intros h Hh; simpl.
  - apply post_skip. repeat split; try reflexivity; auto; lia.
  - apply post_bind.
    unfold onceExit, cleanup, callTerminationHandler, set_worker_killed, the_worker.
    mrun.
    all: try congruence.
    all: (eapply post_conseq; [apply IH; fields; assumption|]); cbv beta; fields;
      intros c h' es (-> & Hres & Hrej & Hterm & Hwork & _).
    all: count_norm; rewrite Hres, Hrej.
    all: repeat split; try reflexivity; try lia; auto.
Qed.

(** X12. terminateAndNotify on a child process that is not killed yet and
    is free to shut down does not kill it and does not settle the
    returned promise: it arms the CHILD_PROCESS_EXIT_TIMEOUT timer and
    sends the terminate message (or queues it while the worker is not
    ready).  When the "exit" event of the worker then arrives, the handler
    is terminated, the worker is dropped and the promise is resolved,
    never rejected (once per exit listener that terminate calls have
    added); a kill timer that fires afterwards does nothing. *)
Theorem child_process_shutdown_completes_on_exit
    (force : bool) (timeout : option N) (d : nat) (exitCode signalCode : Value)
    (h : Handler) :
  worker h = true → kind (transport h) = ChildProcess → killed (transport h) = false →
  1 ≤ concurrency h → (force = false → busy h = false) →
  post (terminateAndNotify force timeout d) h (λ c1 h1 es1,
    (∃ p, c1 = Normal p ∧ deferred p = d)
    ∧ count (is_ResolveTermination d) es1 = 0
    ∧ count is_RejectTermination es1 = 0
    ∧ count is_Kill es1 = 0
    ∧ SetTimeout CleanExitTimeout CHILD_PROCESS_EXIT_TIMEOUT ∈ es1
    ∧ terminated h1 = terminated h
    ∧ (if ready (transport h)
       then OString TERMINATE_METHOD_ID ∈ sent es1
       else requestQueue h1 = requestQueue h ++ [OString TERMINATE_METHOD_ID])
    ∧ post (exitEvent exitCode signalCode) h1 (λ c2 h2 es2,
        c2 = Normal tt
        ∧ count (is_ResolveTermination d) es2 = S (exitListeners h)
        ∧ count is_RejectTermination es2 = 0
        ∧ terminated h2 = true ∧ worker h2 = false
        ∧ cleanExitTimeout h2 = (Normal tt, h2, []))).
Proof.
  intros Hw Hk Hkd Hc Hb. unfold terminateAndNotify. unfold_terminate. mrun.
  all: fields_all; busy_facts; try lia; try congruence.
  all: try (rewrite Hk in *; discriminate).
  all: count_norm; sent_norm.
  all: split; [eexists; split; reflexivity|].
  all: split; [reflexivity|].
  all: split; [reflexivity|].
  all: split; [reflexivity|].
  all: split; [solve [elem_app]|].
  all: split; [reflexivity|].
  all: split; [first [reflexivity | solve [elem_app]]|].
  all: unfold exitEvent, onExit, onError, onWorkerExit; mrun.
  all: (eapply post_conseq; [apply (run_onceExit_notifies _ d); reflexivity|]);
    cbv beta; fields;
    intros c2 h2 es2 (-> & Hres & Hrej & _ & _ & Hdone).
  all: destruct Hdone as [Ht2 Hw2]; [lia|].
  all: count_norm; rewrite Hres, Hrej.
  all: repeat split; try reflexivity; try assumption; try lia.
  all: unfold cleanExitTimeout, mbind, M_bind, get; rewrite Hw2; reflexivity.
Qed.

Lemma child_process_shutdown_completes_on_exit_witness :
  let h1 := (terminateAndNotify true None 7 Fixture.one_in_flight).1.2 in
  terminated h1 = false
  ∧ count (is_ResolveTermination 7) (exitEvent (VNum 0) VNull h1).2 = 1
  ∧ terminated (exitEvent (VNum 0) VNull h1).1.2 = true.
Proof.
  pose proof (child_process_shutdown_completes_on_exit true None 7 (VNum 0) VNull
                Fixture.one_in_flight eq_refl eq_refl eq_refl (Nat.le_refl 1)) as H.
  apply post_run in H; [|discriminate].
  destruct H as (_ & _ & _ & _ & _ & Ht & _ & H2).
  apply post_run in H2. destruct H2 as (_ & Hr & _ & Ht2 & _).
  split; [exact Ht|]. split; [exact Hr | exact Ht2].
Defined.

(** ** Availability and readiness *)

Lemma size_insert_pos (m : gmap nat Task) i t : (1 <=? size (<[i:=t]> m)) = true.
Proof.
  apply Nat.leb_le.
  assert (size (<[i:=t]> m) ≠ 0); [|lia].
  apply (map_size_ne_0_lookup_2 _ i). rewrite lookup_insert_eq. eauto.
Qed.

(** X13. When available() is true, exec hands the request to the worker
    at once (one send, nothing queued) and counts it; with the default
    concurrency of 1 the handler is not available any more afterwards. *)
Theorem available_exec_is_sent (h : Handler) (now : Z) (method : string) (params : Value)
    (resolver : option Resolver) (options : option ExecOptions) :
  available h = true →
  post (exec now method params resolver options) h (λ c h' es,
    c = Normal (default (OwnDeferred (S (lastId h))) resolver)
    ∧ es = [Send (ORequest (mkRequest (S (lastId h)) method params))]
    ∧ requestQueue h' = requestQueue h
    ∧ requestCount (stats h') = S (requestCount (stats h))
    ∧ (concurrency h = 1 → available h' = false)).
Proof.
  unfold available. intros Ha.
  repeat match goal with H : _ && _ = true |- _ => apply andb_true_iff in H as [H ?] end.
  repeat match goal with H : negb _ = true |- _ => apply negb_true_iff in H end.
  unfold exec, worker_send, the_worker. mrun.
  all: try congruence.
  all: cbn [app]; repeat split; try reflexivity.
  all: intros Hc; unfold available; fields; rewrite Hc, size_insert_pos;
    cbn [negb]; by rewrite andb_false_r.
Qed.

Lemma available_exec_is_sent_witness :
  (exec 0 "echo" (VNum 1) None None
     (WorkerHandler None Fixture.callbacks_only "worker.js" Fixture.thread_worker).1).2
  = [Send (ORequest (mkRequest 1 "echo" (VNum 1)))].
Proof.
  pose proof (available_exec_is_sent
                (WorkerHandler None Fixture.callbacks_only "worker.js"
                   Fixture.thread_worker).1
                0 "echo" (VNum 1) None None eq_refl) as H.
  apply post_run in H. destruct H as (_ & H & _). exact H.
Defined.

(** X14. With markNotReadyAfterExec, a terminal response (on a child
    process or worker thread, handler neither terminated nor terminating)
    returns the worker to not-ready: the handler is not available, the
    readiness timer is armed with readyTimeoutDuration (no timer when that
    is absent or 0), and an exec that follows is queued, not sent. *)
Theorem response_asks_for_new_ready
    (h : Handler) (now now' : Z) (r : Response) (task : Task)
    (method : string) (params : Value)
    (resolver : option Resolver) (options : option ExecOptions) :
  markNotReadyAfterExec h = true →
  terminated h = false → worker h = true → on_node h → terminating h = false →
  processing h !! resp_id r = Some task → isEvent r = false →
  post (onMessage now (MObject r)) h (λ c h' es,
    ready (transport h') = false
    ∧ available h' = false
    ∧ readyTimeoutTimer h' =
        (if duration_falsy (readyTimeoutDuration h) then None else readyTimeoutDuration h)
    ∧ post (exec now' method params resolver options) h' (λ c' h'' es',
        sent es' = []
        ∧ requestQueue h'' =
            requestQueue h ++ [ORequest (mkRequest (S (lastId h)) method params)])).
Proof.
  intros Hm Ht Hw Hn Hg Hl He. unfold on_node in Hn.
  unfold_onMessage.
  mrun.
  all: try discriminate.
  all: split; [reflexivity|]; split;
    [unfold available; fields; by rewrite !andb_false_r|].
  all: split; [first [reflexivity | assumption]|].
  all: unfold exec, worker_send, the_worker; mrun.
  all: try congruence.
  all: cbn [app]; split; reflexivity.
Qed.

Lemma response_asks_for_new_ready_witness :
  let h' := (onMessage 5 (MObject (Fixture.echo_result 1 42)) Sample.re_arming).1.2 in
  ready (transport h') = false ∧ readyTimeoutTimer h' = Some 500%N.
Proof.
  pose proof (response_asks_for_new_ready Sample.re_arming 5 6 (Fixture.echo_result 1 42)
                (mkTask 1 (OwnDeferred 1) None 1) "echo" (VNum 2) None None
                eq_refl eq_refl eq_refl eq_refl eq_refl eq_refl eq_refl) as H.
  apply post_run in H. destruct H as (Hr & _ & Ht & _). split; [exact Hr | exact Ht].
Defined.



(** X16. A handler built without a script is ready and available as soon
    as it is constructed, yet the constructor arms the readiness timer
    (initReadyTimeoutDuration, by default readyTimeoutDuration) all the
    same; when that timer fires on the idle handler the worker is shut
    down: a thread or web worker is killed and the handler terminated, a
    child process is sent the terminate message. *)
Theorem default_worker_times_out
    (script : option string) (options : Opt.t) (defaultWorker : string) (w : Worker) :
  script_falsy script = true → killed w = false →
  duration_falsy (init_duration options) = false →
  let '(h0, es0) := WorkerHandler script options defaultWorker w in
  ready (transport h0) = true
  ∧ available h0 = true
  ∧ readyTimeoutTimer h0 = init_duration options
  ∧ post readyTimeout h0 (λ c h' es,
      match kind w with
      | ChildProcess =>
          terminated h' = false ∧ Send (OString TERMINATE_METHOD_ID) ∈ es
          ∧ SetTimeout CleanExitTimeout CHILD_PROCESS_EXIT_TIMEOUT ∈ es
      | WorkerThread | BrowserWorker =>
          terminated h' = true ∧ worker h' = false ∧ count is_Kill es = 1
      end).
Proof.
  intros Hs Hk Hd. unfold init_duration in *.
  unfold WorkerHandler, setReadyTimeout, clearReadyTimeout, set_worker_ready,
    the_worker, onWorkerReady, mbind, M_bind, get, modify, emit, skip, mret, M_ret.
  rewrite Hs. simpl. rewrite Hd.
  destruct (Opt.onWorkerReady options); simpl.
  all: split; [reflexivity|].
  all: split;
    [ unfold available; fields; rewrite map_size_empty;
      destruct (Opt.concurrency options) as [[|c]|],
               (Opt.maxExec options) as [[|k]|]; reflexivity |].
  all: split; [reflexivity|].
  all: unfold readyTimeout; unfold_terminate; mrun.
  all: try discriminate.
  all: fields_all; rewrite ?map_size_empty in *.
  all: try (destruct (Opt.concurrency options) as [[|c]|]; discriminate).
  all: try congruence.
  all: destruct (kind w); try discriminate.
  all: count_norm; leaf_conj.
Qed.

Lemma default_worker_times_out_witness :
  terminated
    (readyTimeout
       (WorkerHandler None Fixture.ready_in_500ms "worker.js" Fixture.thread_worker).1).1.2
  = true.
Proof.
  pose proof (default_worker_times_out None Fixture.ready_in_500ms "worker.js"
                Fixture.thread_worker eq_refl eq_refl eq_refl) as H.
  destruct (WorkerHandler None Fixture.ready_in_500ms "worker.js" Fixture.thread_worker)
    as [h0 es0].
  destruct H as (_ & _ & _ & H). apply post_run in H. destruct H as (H & _). exact H.
Defined.

(** ** Creating the worker object *)










Lemma is_string_eq v s : Setup.is_string v s = true ↔ v = VStr s.
Proof.
  destruct v; simpl; try (split; [discriminate | congruence]).
  rewrite String.eqb_eq. split; congruence.
Qed.

Ltac setup_cases :=
  repeat match goal with
  | |- context [if ?b then _ else _] => destruct b eqn:?
  | |- context [match ?c with Normal _ => _ | Thrown _ => _ end] => destruct c eqn:?
  | |- context [match ?p with Setup.Browser => _ | Setup.Node => _ end] => destruct p eqn:?
  | H : context [if ?b then _ else _] |- _ => destruct b eqn:?
  | H : context [match ?c with Normal _ => _ | Thrown _ => _ end] |- _ => destruct c eqn:?
  | H : context [match ?p with Setup.Browser => _ | Setup.Node => _ end] |- _ => destruct p eqn:?
  end.

(** X18. A worker that setupWorker returns runs the given script and is
    of the substrate that workerType names: a web worker for "web", a
    worker thread for "thread", a child process for "process".  With a
    falsy workerType (undefined, null, the empty string) it is a child
    process as well, also in a browser.  A web worker is only made for
    "web" or in a browser, and in a browser every other truthy workerType
    than "thread" and "process" gives a web worker. *)
Theorem named_worker_type_is_honoured (host : Setup.Host) (script : string)
    (options : Setup.Options) (w : Setup.Spawn) :
  Setup.setupWorker host script options = Normal w →
  Setup.script_of w = script
  ∧ (Setup.workerType options = VStr "web" → Setup.kind_of w = BrowserWorker)
  ∧ (Setup.workerType options = VStr "thread" → Setup.kind_of w = WorkerThread)
  ∧ (Setup.workerType options = VStr "process"
     ∨ truthy (Setup.workerType options) = false →
     Setup.kind_of w = ChildProcess)
  ∧ (Setup.kind_of w = BrowserWorker →
     Setup.workerType options = VStr "web" ∨ Setup.platform host = Setup.Browser)
  ∧ (Setup.platform host = Setup.Browser →
     Setup.kind_of w = BrowserWorker
     ∨ Setup.workerType options = VStr "thread"
     ∨ Setup.workerType options = VStr "process"
     ∨ truthy (Setup.workerType options) = false).
Proof.
  unfold Setup.setupWorker. intros H.
  destruct (Setup.is_string (Setup.workerType options) "web") eqn:Hweb;
    [apply is_string_eq in Hweb|];
    (destruct (Setup.is_string (Setup.workerType options) "thread") eqn:Hthread;
      [apply is_string_eq in Hthread|]);
    (destruct (Setup.is_string (Setup.workerType options) "process") eqn:Hprocess;
      [apply is_string_eq in Hprocess|]);
    (destruct (truthy (Setup.workerType options)) eqn:Htruthy);
    try (rewrite Hweb in * ); try (rewrite Hthread in * ); try (rewrite Hprocess in * );
    try discriminate;
    cbn [orb negb] in H;
    setup_cases; simplify_eq; cbn;
    repeat split; intros; try congruence; try discriminate; auto;
    try (exfalso; match goal with
         | H : _ = VStr _ |- _ => apply is_string_eq in H; congruence
         | H : _ ∨ _ |- _ => destruct H as [H|H]; [apply is_string_eq in H|]; congruence
         end).
Qed.

Lemma named_worker_type_is_honoured_witness :
  Setup.setupWorker Setup.old_node "worker.js" (Setup.pool_options VUndefined)
  = Normal (Setup.Fork "worker.js" VUndefined
              (Some (Setup.mkForkOpts (Some ["--expose-gc"]) {[ "cwd" := VStr "/srv" ]})))
  ∧ Setup.kind_of
      (Setup.Fork "worker.js" VUndefined
         (Some (Setup.mkForkOpts (Some ["--expose-gc"]) {[ "cwd" := VStr "/srv" ]})))
    = ChildProcess.
Proof.
  split; [reflexivity|].
  apply (named_worker_type_is_honoured Setup.old_node "worker.js"
           (Setup.pool_options VUndefined) _ eq_refl).
  right. reflexivity.
Defined.

(** X19. When loading worker_threads fails and setupWorker needs the
    module (workerType "thread", or, outside the browser, a truthy
    workerType other than "web" and "process"): an error whose code is not
    MODULE_NOT_FOUND is rethrown as it is; with MODULE_NOT_FOUND,
    workerType "thread" fails with the "not supported" error, and any
    other workerType behaves exactly as workerType "process". *)
Theorem worker_threads_load_failure (host : Setup.Host) (script : string)
    (options : Setup.Options) (e : JsError) :
  Setup.worker_threads host = Thrown e →
  Setup.is_string (Setup.workerType options) "web" = false →
  Setup.is_string (Setup.workerType options) "process" = false →
  truthy (Setup.workerType options) = true →
  Setup.workerType options = VStr "thread" ∨ Setup.platform host = Setup.Node →
  Setup.setupWorker host script options
  = if Setup.module_not_found e then
      if Setup.is_string (Setup.workerType options) "thread" then
        Thrown (new_Error
          "WorkerPool: workerType = 'thread' is not supported, Node >= 11.7.0 required")
      else
        Setup.setupWorker host script
          (Setup.mkOptions (VStr "process") (Setup.workerThreadOpts options)
             (Setup.debugPort options) (Setup.forkArgs options)
             (Setup.forkOpts options))
    else Thrown e.
Proof.
  intros He Hweb Hprocess Htruthy Hwhere.
  unfold Setup.setupWorker, Setup.ensureWorkerThreads,
    Setup.tryRequireWorkerThreads, Setup.resolveForkOptions.
  rewrite Hweb, Hprocess, Htruthy, He. cbn [orb negb Setup.is_string String.eqb].
  cbn [Setup.workerType Setup.workerThreadOpts Setup.debugPort Setup.forkArgs
       Setup.forkOpts].
  destruct (Setup.is_string (Setup.workerType options) "thread") eqn:Hthread.
  - destruct (Setup.module_not_found e); reflexivity.
  - destruct Hwhere as [Hwhere | ->];
      [apply is_string_eq in Hwhere; congruence|].
    destruct (Setup.module_not_found e); [|reflexivity].
    destruct (Setup.process_execArgv host); [|reflexivity].
    cbv zeta. destruct (Setup.child_process host); reflexivity.
Qed.

Lemma worker_threads_load_failure_witness :
  Setup.setupWorker Setup.old_node "worker.js" (Setup.pool_options (VStr "auto"))
  = Setup.setupWorker Setup.old_node "worker.js" (Setup.pool_options (VStr "process")).
Proof.
  exact (worker_threads_load_failure Setup.old_node "worker.js"
           (Setup.pool_options (VStr "auto")) Setup.not_found
           eq_refl eq_refl eq_refl eq_refl (or_intror eq_refl)).
Defined.

(** X20. The options of every worker thread that setupWorker creates:
    each property of workerThreadOpts is passed with the caller's value,
    [stdout] and [stderr] are false unless the caller gave them, and
    nothing else is added. *)
Theorem thread_worker_options (host : Setup.Host) (script : string)
    (options : Setup.Options) (sc : string) (o : Props) :
  Setup.setupWorker host script options = Normal (Setup.NewThreadWorker sc o) →
  ∀ k : string,
    o !! k
    = match default ∅ (Setup.workerThreadOpts options) !! k with
      | Some v => Some v
      | None =>
          if bool_decide (k = "stdout" ∨ k = "stderr") then Some (VBool false)
          else None
      end.
Proof.
  intros H k.
  assert (o = default ∅ (Setup.workerThreadOpts options)
              ∪ {[ "stdout" := VBool false; "stderr" := VBool false ]}) as ->.
  { unfold Setup.setupWorker, Setup.setupWorkerThreadWorker,
      Setup.setupBrowserWorker, Setup.setupProcessWorker in H.
    setup_cases; simplify_eq; reflexivity. }
  destruct (default ∅ (Setup.workerThreadOpts options) !! k) as [v|] eqn:Hk.
  - apply lookup_union_Some_raw. by left.
  - rewrite lookup_union_r by done. case_bool_decide as Hks.
    + destruct Hks as [-> | ->]; reflexivity.
    + rewrite lookup_insert_ne by (intros <-; apply Hks; by left).
      rewrite lookup_singleton_ne by (intros <-; apply Hks; by right).
      reflexivity.
Qed.

Lemma thread_worker_options_witness :
  (({[ "stdout" := VBool true; "argv" := VOpaque 0 ]}
      ∪ {[ "stdout" := VBool false; "stderr" := VBool false ]} : Props) !! "stdout"
   = Some (VBool true))
  ∧ (({[ "stdout" := VBool true; "argv" := VOpaque 0 ]}
        ∪ {[ "stdout" := VBool false; "stderr" := VBool false ]} : Props) !! "stderr"
     = Some (VBool false)).
Proof.
  split.
  - exact (thread_worker_options Setup.debugged_node "worker.js"
             (Setup.pool_options (VStr "thread")) _ _ eq_refl "stdout").
  - exact (thread_worker_options Setup.debugged_node "worker.js"
             (Setup.pool_options (VStr "thread")) _ _ eq_refl "stderr").
Defined.
